(** * desktop_updater (Windows plugin): a shallow embedding

    The development follows [windows/desktop_updater_plugin.cpp]:

    - [Encoding]: wide strings and [WideStringToUtf8];
    - [Rpc]: the method-channel results and the queries [getPlatformVersion]
      and [getCurrentVersion];
    - [Script]: the batch script written by [createBatFile], as a labelled
      state machine over an abstract command shell;
    - [Orchestrator]: [createBatFile], [runBatFile], [RestartApp] and
      [HandleMethodCall];
    - [Disk]: a file-system model of the shell commands, on which the
      backup, apply and rollback properties are stated;
    - [Scenario]: concrete installations and systems.

    Definitions come first, properties afterwards. *)

From Stdlib Require Import ZArith NArith Ascii String List Lia DecimalString.
From stdpp Require Import gmap strings list fin_maps.

Open Scope string_scope.

(* ===================================================================== *)
(** ** Wide strings and their UTF-8 conversion                            *)
(* ===================================================================== *)

Module Encoding.

(** A [std::wstring] is a sequence of UTF-16 code units. *)
Definition wchar := N.
Definition wstring := list wchar.

(** Wide literal [L"..."] of an ASCII literal. *)
Definition L (s : string) : wstring := map N_of_ascii (list_ascii_of_string s).

(** [c_str()] handed to an API with length [-1]: the API reads up to the
    first NUL. *)
Fixpoint c_str (w : wstring) : wstring :=
  match w with
  | [] => []
  | u :: rest => if (u =? 0)%N then [] else u :: c_str rest
  end.

Definition is_high_surrogate (u : N) : bool := ((0xD800 <=? u) && (u <? 0xDC00))%N.
Definition is_low_surrogate (u : N) : bool := ((0xDC00 <=? u) && (u <? 0xE000))%N.

(** Code points of a UTF-16 sequence; an unpaired surrogate becomes
    U+FFFD, as [WideCharToMultiByte(CP_UTF8, 0, ...)] does. *)
Fixpoint code_points (w : wstring) : list N :=
  match w with
  | [] => []
  | u :: rest =>
      if is_high_surrogate u then
        match rest with
        | l :: rest' =>
            if is_low_surrogate l
            then (0x10000 + (u - 0xD800) * 0x400 + (l - 0xDC00))%N :: code_points rest'
            else 0xFFFD%N :: code_points rest
        | [] => [0xFFFD%N]
        end
      else if is_low_surrogate u then 0xFFFD%N :: code_points rest
      else u :: code_points rest
  end.

Definition utf8_bytes (cp : N) : list N :=
  if (cp <? 0x80)%N then [cp]
  else if (cp <? 0x800)%N then
    [N.lor 0xC0 (N.shiftr cp 6); N.lor 0x80 (N.land cp 0x3F)]
  else if (cp <? 0x10000)%N then
    [N.lor 0xE0 (N.shiftr cp 12);
     N.lor 0x80 (N.land (N.shiftr cp 6) 0x3F);
     N.lor 0x80 (N.land cp 0x3F)]
  else
    [N.lor 0xF0 (N.shiftr cp 18);
     N.lor 0x80 (N.land (N.shiftr cp 12) 0x3F);
     N.lor 0x80 (N.land (N.shiftr cp 6) 0x3F);
     N.lor 0x80 (N.land cp 0x3F)].

(** [WideCharToMultiByte(CP_UTF8, 0, w.c_str(), -1, ...)] without the
    terminating NUL. *)
Definition WideCharToMultiByte_utf8 (w : wstring) : string :=
  string_of_list_ascii
    (map ascii_of_N (concat (map utf8_bytes (code_points (c_str w))))).

(** [WideStringToUtf8]: empty input gives the empty string; otherwise the
    conversion, whose reported size counts the NUL and is therefore
    positive. *)
Definition WideStringToUtf8 (wideStr : wstring) : string :=
  match wideStr with
  | [] => ""
  | _ => WideCharToMultiByte_utf8 wideStr
  end.

(** [std::string::find_last_of(ch)]: index of the last occurrence. *)
Fixpoint find_last_of (ch : ascii) (s : string) : option nat :=
  match s with
  | EmptyString => None
  | String c r =>
      match find_last_of ch r with
      | Some p => Some (S p)
      | None => if Ascii.eqb c ch then Some 0%nat else None
      end
  end.

(** [ExtractExecutableName]: what follows the last backslash. *)
Definition ExtractExecutableName (fullPath : string) : string :=
  match find_last_of "\"%char fullPath with
  | Some pos =>
      String.substring (pos + 1) (String.length fullPath - (pos + 1)) fullPath
  | None => fullPath
  end.

(** A string of 7-bit characters other than NUL. *)
Definition plain (s : string) : bool :=
  forallb (fun a => (0 <? N_of_ascii a)%N && (N_of_ascii a <? 128)%N) (list_ascii_of_string s).

(** The separator [ExtractExecutableName] looks for. *)
Definition backslash : ascii := "\"%char.

End Encoding.

(* ===================================================================== *)
(** ** Method-channel results and the two version queries                 *)
(* ===================================================================== *)

Module Rpc.
Import Encoding.

(** [flutter::EncodableValue], as far as the plugin uses it. *)
Inductive encodable :=
| ENull
| EString (s : string).

(** What a [flutter::MethodResult] is completed with. *)
Inductive method_result :=
| Success (v : encodable)
| Error (code message : string)
| NotImplemented.

(** *** getPlatformVersion *)

(** The running system's version, compared by the [VersionHelpers.h]
    predicates: major, minor and service-pack numbers, in that order. *)
Record os_version := { wMajor : N; wMinor : N; wServicePack : N }.

Definition IsWindowsVersionOrGreater (major minor sp : N) (os : os_version) : bool :=
  ((major <? wMajor os)
   || ((major =? wMajor os)
       && ((minor <? wMinor os)
           || ((minor =? wMinor os) && (sp <=? wServicePack os)))))%N.

Definition IsWindows7OrGreater := IsWindowsVersionOrGreater 6%N 1%N 0%N.
Definition IsWindows8OrGreater := IsWindowsVersionOrGreater 6%N 2%N 0%N.
Definition IsWindows10OrGreater := IsWindowsVersionOrGreater 10%N 0%N 0%N.

Definition getPlatformVersion (os : os_version) : method_result :=
  let version_stream := "Windows " in
  let version_stream :=
    if IsWindows10OrGreater os then version_stream ++ "10+"
    else if IsWindows8OrGreater os then version_stream ++ "8"
    else if IsWindows7OrGreater os then version_stream ++ "7"
    else version_stream in
  Success (EString version_stream).

(** *** getCurrentVersion *)

Record LANGANDCODEPAGE := { wLanguage : N; wCodePage : N }.

(** What the version APIs answer for the running executable:
    [GetFileVersionInfoSizeW], [GetFileVersionInfoW],
    [VerQueryValueW] on [\VarFileInfo\Translation] (the table, whose
    byte size is [cbTranslate]) and on
    [\StringFileInfo\<lang><codepage>\ProductVersion]. *)
Record version_resource := {
  verSize : N;
  fileVersionInfo : bool;
  translation : option (list LANGANDCODEPAGE);
  productVersionOf : LANGANDCODEPAGE -> option wstring
}.

Definition sizeof_LANGANDCODEPAGE : N := 4%N.

Definition cbTranslate (t : list LANGANDCODEPAGE) : N :=
  (sizeof_LANGANDCODEPAGE * N.of_nat (length t))%N.

(** [std::wstring::find(ch)]: index of the first occurrence. *)
Fixpoint wfind (ch : wchar) (w : wstring) : option nat :=
  match w with
  | [] => None
  | u :: rest => if (u =? ch)%N then Some 0%nat else S <$> wfind ch rest
  end.

(** [find_last_not_of(ch)]: index of the last unit different from [ch]. *)
Fixpoint wfind_last_not_of (ch : wchar) (w : wstring) : option nat :=
  match w with
  | [] => None
  | u :: rest =>
      match wfind_last_not_of ch rest with
      | Some p => Some (S p)
      | None => if (u =? ch)%N then None else Some 0%nat
      end
  end.

Definition plus_sign : wchar := 43%N.
Definition space : wchar := 32%N.

(** The tail of the handler, from the product-version string on. *)
Definition parse_build (productVersion : wstring) : method_result :=
  match wfind plus_sign productVersion with
  | Some plusPos =>
      if (plusPos + 1 <? length productVersion)%nat then
        let buildNumber := drop (plusPos + 1) productVersion in
        (* erase(find_last_not_of(' ') + 1): npos + 1 wraps to 0 *)
        let keep :=
          match wfind_last_not_of space buildNumber with
          | Some p => (p + 1)%nat
          | None => 0%nat
          end in
        let buildNumber := take keep buildNumber in
        Success (EString (WideCharToMultiByte_utf8 buildNumber))
      else Error "VersionError" "Invalid version format."
  | None => Error "VersionError" "Invalid version format."
  end.

Definition getCurrentVersion (r : version_resource) : method_result :=
  if (verSize r =? 0)%N then Error "VersionError" "Unable to get version size."
  else if negb (fileVersionInfo r) then Error "VersionError" "Unable to get version info."
  else
    match translation r with
    | None => Error "VersionError" "Unable to get translation info."
    | Some lpTranslate =>
        if (cbTranslate lpTranslate <? sizeof_LANGANDCODEPAGE)%N
        then Error "VersionError" "Unable to get translation info."
        else
          match lpTranslate with
          | [] => Error "VersionError" "Unable to get translation info."
          | first :: _ =>
              match productVersionOf r first with
              | None => Error "VersionError" "Unable to query version value."
              | Some lpBuffer => parse_build (c_str lpBuffer)
              end
          end
    end.

Definition is_VersionError (r : method_result) : Prop :=
  exists message, r = Error "VersionError" message.

(** The resource answers every query and its product version is [pv]. *)
Definition yields (r : version_resource) (pv : wstring) : Prop :=
  verSize r <> 0%N /\ fileVersionInfo r = true
  /\ exists first rest, translation r = Some (first :: rest)
       /\ productVersionOf r first = Some pv.

(** Something the handler asks the resource for is missing. *)
Definition incomplete (r : version_resource) : Prop :=
  verSize r = 0%N \/ fileVersionInfo r = false
  \/ translation r = None \/ translation r = Some []
  \/ exists first rest, translation r = Some (first :: rest)
       /\ productVersionOf r first = None.

(** No ['+'], or nothing after it. *)
Definition no_build (pv : wstring) : Prop :=
  match wfind plus_sign (c_str pv) with
  | Some plusPos => (length (c_str pv) <= plusPos + 1)%nat
  | None => True
  end.

(** The family [getPlatformVersion] names, read off the version numbers. *)
Definition family_of (os : os_version) : string :=
  if (10 <=? wMajor os)%N then "10+"
  else if (7 <=? wMajor os)%N || ((wMajor os =? 6)%N && (2 <=? wMinor os)%N) then "8"
  else if (wMajor os =? 6)%N && (wMinor os =? 1)%N then "7"
  else "".

End Rpc.

(* ===================================================================== *)
(** ** The update script                                                  *)
(* ===================================================================== *)

(** [createBatFile] builds the text of [update_script.bat] from four
    strings and three integer constants.  The script is embedded here as the
    program it is: a state machine whose control points are the script's
    labels, whose variables are [COUNT], [RETRY] and [ERRORLEVEL], and whose
    external commands are run by a command shell.  Console output ([echo],
    [chcp]) has no effect on the run and is left out.

    [cmd.exe] replaces [%VAR%] by the variable's value when it reads a
    command, and it reads a parenthesised block as one command.  The script
    does not enable delayed expansion, so a [%VAR%] inside a block has the
    value the variable had when the block was entered; the embedding names
    such values [..._read]. *)

Module Script.
#[local] Open Scope list_scope.

(** Paths are lists of components relative to the working directory, which
    is the installation root; [[]] is [.]. *)
Abbreviation path := (list string).

Inductive xflag := FE | FH | FC | FI | FY.

(** The external commands of the script, with the arguments the script
    gives them. *)
Inductive command :=
| Tasklist (image : string)   (* tasklist /FI "IMAGENAME eq X" 2>NUL | find /I "X" >NUL *)
| Taskkill (image : string)   (* taskkill /F /IM "X" *)
| Timeout (seconds : Z)       (* timeout /t N /nobreak *)
| Rmdir (dir : path)          (* rmdir /s /q DIR *)
| Mkdir (dir : path)          (* mkdir DIR *)
| Copy (src dst : path)       (* copy SRC DST *)
| Xcopy (flags : list xflag) (src dst : path)  (* xcopy FLAGS SRC\* DST\ *)
| Start (exe : string)        (* start /MAX "" "EXE" *)
| Del (file : path).          (* del FILE *)

#[global] Instance xflag_eq_dec : EqDecision xflag.
Proof. solve_decision. Defined.
#[global] Instance command_eq_dec : EqDecision command.
Proof. solve_decision. Defined.

(** The capabilities the script relies on: running a command changes the
    world and yields an exit code; [if exist], [for %%F in ( * )] and
    [for /D %%D in ( * )] read the working directory. *)
Class Shell (W : Type) := {
  sh_run : command -> W -> W * Z;
  sh_exist : path -> W -> bool;
  sh_files : W -> list string;
  sh_dirs : W -> list string
}.

(** The strings [createBatFile] splices into the script. *)
Record params := {
  updateDirStr : path;
  destDirStr : path;
  exePathStr : string;
  exeNameStr : string
}.

Definition MAX_WAIT_ATTEMPTS : Z := 5.
Definition MAX_RETRY_ATTEMPTS : Z := 3.
Definition RETRY_DELAY_SECONDS : Z := 2.

Inductive label :=
| Lentry | Lwait_loop | Lstep2 | Lretry_copy | Lstep4 | Lcleanup | Lexit.

#[global] Instance label_eq_dec : EqDecision label.
Proof. solve_decision. Defined.

Record state (W : Type) := State {
  world : W;
  COUNT : Z;
  RETRY : Z;
  ERRORLEVEL : Z;
  trace : list (command * Z)
}.
Arguments State {W}.
Arguments world {W}.
Arguments COUNT {W}.
Arguments RETRY {W}.
Arguments ERRORLEVEL {W}.
Arguments trace {W}.

Definition initial {W} (w : W) : state W :=
  {| world := w; COUNT := 0; RETRY := 0; ERRORLEVEL := 0; trace := [] |}.

Section Machine.
Context {W : Type} `{Shell W}.
Variable p : params.

(** Run one external command: the world changes, [ERRORLEVEL] is the exit
    code, and the command is appended to the trace with its code. *)
Definition exec (c : command) (s : state W) : state W :=
  let r := sh_run c (world s) in
  {| world := r.1; COUNT := COUNT s; RETRY := RETRY s;
     ERRORLEVEL := r.2; trace := (trace s ++ [(c, r.2)])%list |}.

Definition set_COUNT (v : Z) (s : state W) : state W :=
  {| world := world s; COUNT := v; RETRY := RETRY s;
     ERRORLEVEL := ERRORLEVEL s; trace := trace s |}.

Definition set_RETRY (v : Z) (s : state W) : state W :=
  {| world := world s; COUNT := COUNT s; RETRY := v;
     ERRORLEVEL := ERRORLEVEL s; trace := trace s |}.

Definition backup_dir : path := ["backup"].
Definition script_file : path := ["update_script.bat"].

(** [for %%F in ( * ) do ( if not "%%F"=="backup" ( if not
    "%%F"=="update_script.bat" ( copy "%%F" "backup\%%F" ) ) )] *)
Definition backup_file (s : state W) (F : string) : state W :=
  if negb (String.eqb F "backup") then
    if negb (String.eqb F "update_script.bat") then
      exec (Copy [F] ["backup"; F]) s
    else s
  else s.

(** [for /D %%D in ( * ) do ( if not "%%D"=="backup" ( if not
    "%%D"=="update" ( xcopy /E /H /C /I /Y "%%D" "backup\%%D\" ) ) )] *)
Definition backup_subdir (s : state W) (D : string) : state W :=
  if negb (String.eqb D "backup") then
    if negb (String.eqb D "update") then
      exec (Xcopy [FE; FH; FC; FI; FY] [D] ["backup"; D]) s
    else s
  else s.

Definition apply_copy : command := Xcopy [FE; FI; FY] (updateDirStr p) (destDirStr p).
Definition restore_copy : command := Xcopy [FE; FH; FC; FI; FY] backup_dir [].

(** One block of the script: from a label to the next [goto] or to the
    next label reached by falling through. *)
Definition step (pc : label) (s : state W) : label * state W :=
  match pc with
  | Lentry =>
      (* set COUNT=0 *)
      (Lwait_loop, set_COUNT 0 s)
  | Lwait_loop =>
      let s := exec (Tasklist (exeNameStr p)) s in
      (* if "%ERRORLEVEL%"=="0" ( ... ) : the block is read here *)
      if (ERRORLEVEL s =? 0)%Z then
        let COUNT_read := COUNT s in
        (* set /a COUNT+=1 *)
        let s := set_COUNT (COUNT s + 1) s in
        (* if %COUNT% GEQ 5 ( taskkill ... & goto step2 ) *)
        if (MAX_WAIT_ATTEMPTS <=? COUNT_read)%Z then
          (Lstep2, exec (Taskkill (exeNameStr p)) s)
        else
          (* timeout /t 1 /nobreak & goto wait_loop *)
          (Lwait_loop, exec (Timeout 1) s)
      else (Lstep2, s)
  | Lstep2 =>
      (* if exist backup ( rmdir /s /q backup ) *)
      let s := if sh_exist backup_dir (world s) then exec (Rmdir backup_dir) s else s in
      let s := exec (Mkdir backup_dir) s in
      let s := fold_left backup_file (sh_files (world s)) s in
      let s := fold_left backup_subdir (sh_dirs (world s)) s in
      (* set RETRY=0 *)
      (Lretry_copy, set_RETRY 0 s)
  | Lretry_copy =>
      (* set /a RETRY+=1 *)
      let s := set_RETRY (RETRY s + 1) s in
      let s := exec apply_copy s in
      if (ERRORLEVEL s =? 0)%Z then
        (Lcleanup, exec (Rmdir backup_dir) s)
      else if (RETRY s <? MAX_RETRY_ATTEMPTS)%Z then
        (Lretry_copy, exec (Timeout RETRY_DELAY_SECONDS) s)
      else (Lstep4, s)
  | Lstep4 =>
      (* the outcome of the restoring xcopy only selects a message *)
      let s := exec restore_copy s in
      (Lcleanup, exec (Rmdir backup_dir) s)
  | Lcleanup =>
      let s := exec (Rmdir (updateDirStr p)) s in
      let s := exec (Start (exePathStr p)) s in
      let s := exec (Timeout 1) s in
      let s := exec (Del script_file) s in
      (Lexit, s)
  | Lexit => (Lexit, s)
  end.

(** [fuel] blocks in a row; [exit] ends the script, so the machine stays at
    [Lexit]. *)
Fixpoint run (fuel : nat) (pc : label) (s : state W) : label * state W :=
  match fuel with
  | O => (pc, s)
  | S fuel' => let r := step pc s in run fuel' r.1 r.2
  end.

(** Thirteen blocks are the longest path: the entry, six polls, the backup,
    three copy attempts, the restore and the cleanup. *)
Definition enough_fuel : nat := 13.

Definition execute (w : W) : label * state W := run enough_fuel Lentry (initial w).

End Machine.

(** *** The shape of a trace

    What the blocks append to the trace, phase by phase; [execute_shape]
    below shows that every run has this shape, whatever the shell answers. *)

(** WAIT_EXIT entered with [COUNT = c]. *)
Inductive wait_trace (exe : string) : Z -> list (command * Z) -> Prop :=
| wait_gone c e :
    e <> 0%Z -> wait_trace exe c [(Tasklist exe, e)]
| wait_kill c e' :
    (MAX_WAIT_ATTEMPTS <= c)%Z ->
    wait_trace exe c [(Tasklist exe, 0%Z); (Taskkill exe, e')]
| wait_again c e' t :
    (c < MAX_WAIT_ATTEMPTS)%Z -> wait_trace exe (c + 1) t ->
    wait_trace exe c ((Tasklist exe, 0%Z) :: (Timeout 1, e') :: t).

(** The commands of BACKUP. *)
Inductive backup_command : command -> Prop :=
| backup_rmdir : backup_command (Rmdir ["backup"])
| backup_mkdir : backup_command (Mkdir ["backup"])
| backup_copy F : backup_command (Copy [F] ["backup"; F])
| backup_xcopy D : backup_command (Xcopy [FE; FH; FC; FI; FY] [D] ["backup"; D]).

(** APPLY entered with [RETRY = r], and the label it leaves to. *)
Inductive apply_trace (p : params) : Z -> list (command * Z) -> label -> Prop :=
| apply_ok r e' :
    apply_trace p r [(apply_copy p, 0%Z); (Rmdir ["backup"], e')] Lcleanup
| apply_again r e e' t l :
    e <> 0%Z -> (r + 1 < MAX_RETRY_ATTEMPTS)%Z -> apply_trace p (r + 1) t l ->
    apply_trace p r ((apply_copy p, e) :: (Timeout RETRY_DELAY_SECONDS, e') :: t) l
| apply_fail r e :
    e <> 0%Z -> (MAX_RETRY_ATTEMPTS <= r + 1)%Z ->
    apply_trace p r [(apply_copy p, e)] Lstep4.

(** ROLLBACK, entered only from [Lstep4]. *)
Definition rollback_trace (l : label) (t : list (command * Z)) : Prop :=
  match l with
  | Lstep4 => exists e e', t = [(restore_copy, e); (Rmdir ["backup"], e')]
  | _ => t = []
  end.

Definition cleanup_commands (p : params) : list command :=
  [Rmdir (updateDirStr p); Start (exePathStr p); Timeout 1; Del ["update_script.bat"]].

(** A whole run: the five phases in order. *)
Inductive run_shape (p : params) : list (command * Z) -> Prop :=
| run_phases wt bt at_ rt ct next :
    wait_trace (exeNameStr p) 0 wt ->
    Forall (fun e => backup_command e.1) bt ->
    apply_trace p 0 at_ next ->
    rollback_trace next rt ->
    ct.*1 = cleanup_commands p ->
    run_shape p (wt ++ bt ++ at_ ++ rt ++ ct)%list.

(** Readings of a trace. *)
Definition commands (t : list (command * Z)) : list command := t.*1.

Definition codes_of (c : command) (t : list (command * Z)) : list Z :=
  (filter (fun e => e.1 = c) t).*2.

Definition occurrences (c : command) (t : list (command * Z)) : nat :=
  length (codes_of c t).

(** Classes of trace entries used in the statements below. *)
Definition no_start (e : command * Z) : Prop := forall x, e.1 <> Start x.

Definition no_poll (exe : string) (e : command * Z) : Prop := e.1 <> Tasklist exe.

Definition is_apply (p : params) (e : command * Z) : Prop :=
  e.1 = apply_copy p \/ e.1 = Timeout 2.

Definition not_apply (p : params) (e : command * Z) : Prop := ~ is_apply p e.

(** What follows APPLY: the Backup is deleted, or it is copied back. *)
Definition backup_deleted (t : list (command * Z)) : Prop :=
  exists d rest, t = (Rmdir ["backup"], d) :: rest.

Definition rolled_back (t : list (command * Z)) : Prop :=
  exists r rest, t = (restore_copy, r) :: rest.

(** [cmd.exe] replaces [%...%] in every line it reads, also inside
    quotes, and [createBatFile] splices its strings into the lines as they
    are.  The machine above gives the commands the spliced strings
    themselves, which is what [cmd.exe] does with strings that hold no
    ['%']; statements about which program, image or directory a command
    names are made for such strings only. *)
Definition no_percent (s : string) : bool :=
  negb (existsb (Ascii.eqb "%"%char) (list_ascii_of_string s)).

Definition percent_free (p : params) : bool :=
  no_percent (exePathStr p) && no_percent (exeNameStr p)
  && forallb no_percent (updateDirStr p) && forallb no_percent (destDirStr p).

(** Commands that concern the process table. *)
Definition process_command (c : command) : Prop :=
  match c with Tasklist _ | Taskkill _ => True | _ => False end.

(** The commands of the script, with the only arguments it gives them. *)
Definition script_command (p : params) (c : command) : Prop :=
  match c with
  | Tasklist x | Taskkill x => x = exeNameStr p
  | Timeout n => n = 1%Z \/ n = 2%Z
  | Rmdir d => d = ["backup"] \/ d = updateDirStr p
  | Mkdir d => d = ["backup"]
  | Copy src dst => exists F, src = [F] /\ dst = ["backup"; F]
  | Xcopy _ src dst =>
      (exists D, src = [D] /\ dst = ["backup"; D])
      \/ (src = updateDirStr p /\ dst = destDirStr p)
      \/ (src = ["backup"] /\ dst = [])
  | Start x => x = exePathStr p
  | Del f => f = ["update_script.bat"]
  end.

(** The seconds a command sleeps. *)
Definition delay_of (c : command) : Z :=
  match c with Timeout n => n | _ => 0%Z end.

Definition total_delay (t : list (command * Z)) : Z :=
  foldr (fun c acc => (delay_of c + acc)%Z) 0%Z (commands t).


End Script.

(* ===================================================================== *)
(** ** The orchestrator: createBatFile, runBatFile, RestartApp            *)
(* ===================================================================== *)

Module Orchestrator.
Import Encoding Rpc.

(** What the plugin does to the outside, in order. *)
Inductive effect :=
| Stdout (text : string)
| Stderr (text : string)
| WriteFile (name : string) (script : Script.params)
| CreateProcess (cmdLine : string)
| CloseHandles
| ExitProcess (code : Z)
| Reply (r : method_result).

(** What the system answers to the running process. *)
Record host := {
  os : os_version;
  module_file_name : wstring;          (* GetModuleFileNameW(NULL, ...) *)
  resource : version_resource;
  ofstream_is_open : bool;             (* std::ofstream batFile(...) opened *)
  CreateProcess_success : bool;
  GetLastError : N
}.

(** A computation of the process: the effects so far, and its value unless
    the process has exited ([ExitProcess] does not return). *)
Definition proc (A : Type) : Type := list effect * option A.

Definition ret {A} (a : A) : proc A := ([], Some a).

Definition bind {A B} (m : proc A) (f : A -> proc B) : proc B :=
  match m.2 with
  | Some a => let r := f a in ((m.1 ++ r.1)%list, r.2)
  | None => (m.1, None)
  end.

Definition emit (e : effect) : proc unit := ([e], Some tt).
Definition exit_process (code : Z) : proc unit := ([ExitProcess code], None).

#[global] Instance proc_ret : MRet proc := @ret.
#[global] Instance proc_bind : MBind proc := fun A B f m => bind m f.

Definition nl : string := String (ascii_of_nat 10) "".

Definition decimal (n : N) : string := NilEmpty.string_of_uint (N.to_uint n).

(** Components of a path written with backslashes; [.] and empty
    components stand for the directory itself. *)
Fixpoint split_backslash (s cur : string) : list string :=
  match s with
  | EmptyString => [cur]
  | String c r =>
      if Ascii.eqb c "\"%char then cur :: split_backslash r ""
      else split_backslash r (cur ++ String c "")
  end.

Definition components (s : string) : Script.path :=
  filter (fun n => n <> "" /\ n <> ".") (split_backslash s "").

(** The script [createBatFile] builds from its arguments. *)
Definition batScript (updateDir destDir executable_path : wstring) : Script.params :=
  let updateDirStr := WideStringToUtf8 updateDir in
  let destDirStr := WideStringToUtf8 destDir in
  let exePathStr := WideStringToUtf8 (c_str executable_path) in
  let exeNameStr := ExtractExecutableName exePathStr in
  {| Script.updateDirStr := components updateDirStr;
     Script.destDirStr := components destDirStr;
     Script.exePathStr := exePathStr;
     Script.exeNameStr := exeNameStr |}.

Definition createBatFile (h : host) (updateDir destDir executable_path : wstring)
  : proc unit :=
  if ofstream_is_open h then
    emit (WriteFile "update_script.bat" (batScript updateDir destDir executable_path)) ;;
    emit (Stdout ("Update batch script created successfully." ++ nl))
  else
    emit (Stderr ("Error: Failed to create update batch script." ++ nl)).

Definition runBatFile (h : host) : proc unit :=
  let cmdLine := "cmd.exe /c update_script.bat" in
  if CreateProcess_success h then
    emit (CreateProcess cmdLine) ;;
    emit CloseHandles ;;
    emit (Stdout ("Update script started successfully." ++ nl))
  else
    let error := GetLastError h in
    emit (Stderr ("Error: Failed to start update script. Error code: "
                   ++ decimal error ++ nl)).

(** [RestartApp].  The path printed with [%ls] is shown in its UTF-8 form;
    [ExitProcess] is reached whatever the two calls before it did. *)
Definition RestartApp (h : host) : proc unit :=
  emit (Stdout ("Restarting the application..." ++ nl)) ;;
  let executable_path := module_file_name h in
  emit (Stdout ("Executable path: " ++ WideStringToUtf8 (c_str executable_path) ++ nl)) ;;
  let updateDir := L "update" in
  let destDir := L "." in
  createBatFile h updateDir destDir executable_path ;;
  runBatFile h ;;
  exit_process 0.

(** [HandleMethodCall]: the dispatch on the method name.  The string of
    [getExecutablePath] has [size_needed] bytes, the terminating NUL
    included. *)
Definition HandleMethodCall (h : host) (method_name : string) : proc unit :=
  if String.eqb method_name "getPlatformVersion" then
    emit (Reply (getPlatformVersion (os h)))
  else if String.eqb method_name "restartApp" then
    RestartApp h ;;
    emit (Reply (Success ENull))
  else if String.eqb method_name "getExecutablePath" then
    let executablePathStr :=
      WideCharToMultiByte_utf8 (module_file_name h) ++ String (ascii_of_nat 0) "" in
    emit (Reply (Success (EString executablePathStr)))
  else if String.eqb method_name "getCurrentVersion" then
    emit (Reply (getCurrentVersion (resource h)))
  else
    emit (Reply NotImplemented).

Definition exited {A} (r : proc A) : Prop := r.2 = None.
Definition replies {A} (r : proc A) : list method_result :=
  omap (fun e => match e with Reply x => Some x | _ => None end) r.1.
Definition spawned {A} (r : proc A) : bool :=
  existsb (fun e => match e with CreateProcess _ => true | _ => false end) r.1.
Definition wrote_script {A} (r : proc A) : bool :=
  existsb (fun e => match e with WriteFile _ _ => true | _ => false end) r.1.

(** The script [RestartApp] leaves for an executable. *)
Definition restart_script (executable_path : wstring) : Script.params :=
  batScript (L "update") (L ".") executable_path.

(** The [restartApp] call, and the two messages of failure. *)
Definition restart (h : host) : proc unit := HandleMethodCall h "restartApp".

Definition spawn_error_message (h : host) : string :=
  ("Error: Failed to start update script. Error code: "
     ++ decimal (GetLastError h) ++ nl)%string.

Definition persist_error_message : string :=
  ("Error: Failed to create update batch script." ++ nl)%string.

(** The effects that reach outside the console. *)
Definition silent (e : effect) : bool :=
  match e with Stdout _ | Stderr _ => true | _ => false end.

Definition actions {A} (r : proc A) : list effect :=
  filter (fun e => silent e = false) r.1.

End Orchestrator.

(* ===================================================================== *)
(** ** A file-system model of the command shell                           *)
(* ===================================================================== *)

(** The commands of the script are Windows programs; what they do is fixed
    here by a model of the installation root.  The root is a finite map
    from paths to nodes.  Every command takes one tick of a clock.  For
    every tick the world itself says whether the application is still in
    the process table and which paths are held: a path is held when another
    process has the file open or the system denies the change, and then a
    file there can be neither written nor deleted, and a directory there can
    be neither made by [mkdir] nor removed.  So a statement about every
    world covers every behaviour of the application and of whatever else
    holds files open.

    [rmdir /s /q] removes what it can: an entry that is held stays, and so
    does every directory on the way down to it.  [del] leaves a held file
    where it is.  The script hides the failures of both behind
    [>NUL 2>&1] and never looks at their exit codes.

    An [xcopy] with [/C] skips what it cannot write and goes on; what it
    reports after skipping is left to the world.  Without [/C] it stops at
    the first entry it cannot write and reports a non-zero code: what it
    has written by then depends on the order in which the file system
    lists the entries, so the world says how far the copy got.

    Simplifications: file attributes (hidden, read-only) are not modelled,
    so the flag [/H] changes nothing; the three [xcopy] commands of the
    script all carry [/E /I /Y], and that is the behaviour modelled; the
    directories an [xcopy] makes on its way fail only where a plain file
    stands in the way; a held file can still be read, so a copy fails at
    its destination only; a source that holds no file at all is copied
    like any other, with code 0. *)

Module Disk.
Import Script.
#[local] Open Scope list_scope.

Inductive node :=
| File (content : string)
| Dir.

#[global] Instance node_eq_dec : EqDecision node.
Proof. solve_decision. Defined.

Record disk := MkDisk {
  files : gmap path node;
  now : nat;
  running : nat -> bool;          (* the image is in the process table *)
  locked : nat -> path -> bool;   (* the path is held open or denied *)
  skip_code : nat -> Z;           (* what an xcopy /C reports after skipping *)
  reached : nat -> path -> bool   (* an xcopy that stops has got to the path *)
}.

Definition file_at (fs : gmap path node) (t : path) : bool :=
  match fs !! t with Some (File _) => true | _ => false end.

Definition dir_at (fs : gmap path node) (t : path) : bool :=
  match fs !! t with Some Dir => true | _ => false end.

(** [strip p k = Some q] when [k] is [p] followed by [q]. *)
Fixpoint strip (p k : path) : option path :=
  match p, k with
  | [], _ => Some k
  | a :: p', b :: k' => if decide (a = b) then strip p' k' else None
  | _ :: _, [] => None
  end.

(** The non-empty prefixes of a path, the path itself included. *)
Definition prefixes (t : path) : list path :=
  (fun i => take i t) <$> seq 1 (length t).

(** The directories on the way to [t]. *)
Definition ancestors (t : path) : list path := prefixes (removelast t).

(** No plain file stands where a directory is needed on the way to [t]. *)
Definition clear_way (fs : gmap path node) (t : path) : bool :=
  forallb (fun a => negb (file_at fs a)) (ancestors t).

(** An entry can be written at [t]: a file never replaces a directory, a
    directory never replaces a file, and a held file is not written. *)
Definition writable (w : disk) (t : path) (v : node) : bool :=
  clear_way (files w) t &&
  match v with
  | File _ => negb (dir_at (files w) t) && negb (locked w (now w) t)
  | Dir => negb (file_at (files w) t)
  end.

(** The directories [xcopy] creates for its destination. *)
Definition mkdirs (dst : path) (fs : gmap path node) : gmap path node :=
  fs ∪ gset_to_gmap Dir (list_to_set (prefixes dst)).

(** One entry of the source tree, copied if it can be. *)
Definition xcopy_entry (can : path -> node -> bool) (src dst : path)
    (k : path) (v : node) (acc : gmap path node) : gmap path node :=
  match strip src k with
  | Some (n :: q) =>
      if can (dst ++ n :: q)%list v then <[(dst ++ n :: q)%list := v]> acc else acc
  | _ => acc
  end.

Definition xcopy_entry_ok (w : disk) (src dst : path) (k : path) (v : node) : bool :=
  match strip src k with
  | Some (n :: q) => writable w (dst ++ n :: q)%list v
  | _ => true
  end.

(** [xcopy /C SRC\* DST\]: everything below [SRC] that can be written is
    laid over [DST]. *)
Definition xcopy (w : disk) (src dst : path) : gmap path node * Z :=
  let fs := files w in
  if (bool_decide (src = []) || dir_at fs src)
     && forallb (fun a => negb (file_at fs a)) (prefixes dst)
  then
    (map_fold (xcopy_entry (writable w) src dst) (mkdirs dst fs) fs,
     if bool_decide (map_Forall (fun k v => xcopy_entry_ok w src dst k v = true) fs)
     then 0%Z else 4%Z)
  else (fs, 4%Z).

(** What an [xcopy] without [/C] writes: everything, if everything can be
    written; otherwise what can be written among the entries it got to
    before it stopped. *)
Definition wrote (w : disk) (src dst : path) (t : path) (v : node) : bool :=
  if bool_decide (map_Forall (fun k v => xcopy_entry_ok w src dst k v = true) (files w))
  then writable w t v
  else writable w t v && reached w (now w) t.

(** [xcopy SRC\* DST\] without [/C]. *)
Definition xcopy_stop (w : disk) (src dst : path) : gmap path node * Z :=
  let fs := files w in
  if (bool_decide (src = []) || dir_at fs src)
     && forallb (fun a => negb (file_at fs a)) (prefixes dst)
  then
    (map_fold (xcopy_entry (wrote w src dst) src dst) (mkdirs dst fs) fs,
     if bool_decide (map_Forall (fun k v => xcopy_entry_ok w src dst k v = true) fs)
     then 0%Z else 4%Z)
  else (fs, 4%Z).

(** [copy SRC DST] of one file into an existing directory. *)
Definition copy (w : disk) (src dst : path) : gmap path node * Z :=
  let fs := files w in
  match fs !! src with
  | Some (File c) =>
      if (bool_decide (removelast dst = []) || dir_at fs (removelast dst))
         && negb (dir_at fs dst) && negb (locked w (now w) dst)
      then (<[dst := File c]> fs, 0%Z)
      else (fs, 1%Z)
  | _ => (fs, 1%Z)
  end.

(** An entry that [rmdir /s] cannot take away: it is held, or something
    below it is. *)
Definition stays (w : disk) (k : path) : bool :=
  existsb (fun kv => bool_decide (k `prefix_of` kv.1) && locked w (now w) kv.1)
    (map_to_list (files w)).

(** [rmdir /s /q DIR]: the directory goes with all it contains, but for
    what is held. *)
Definition rmdir (w : disk) (dir : path) : gmap path node * Z :=
  let fs := files w in
  if dir_at fs dir
  then (filter (fun kv => ¬ dir `prefix_of` kv.1 \/ stays w kv.1 = true) fs,
        if stays w dir then 145%Z else 0%Z)
  else (fs, 2%Z).

Definition mkdir (w : disk) (dir : path) : gmap path node * Z :=
  let fs := files w in
  match fs !! dir with
  | None =>
      if (bool_decide (removelast dir = []) || dir_at fs (removelast dir))
         && negb (locked w (now w) dir)
      then (<[dir := Dir]> fs, 0%Z) else (fs, 1%Z)
  | Some _ => (fs, 1%Z)
  end.

Definition del (w : disk) (file : path) : gmap path node * Z :=
  let fs := files w in
  if file_at fs file && negb (locked w (now w) file)
  then (delete file fs, 0%Z) else (fs, 1%Z).

(** [/C] is among the flags. *)
Definition carries_on (flags : list xflag) : bool :=
  existsb (fun f => match f with FC => true | _ => false end) flags.

(** The code an [xcopy /C] reports: after skipping an entry it is the
    world's to say. *)
Definition xcopy_code (w : disk) (code : Z) : Z :=
  if (code =? 0)%Z then 0%Z else skip_code w (now w).

Definition tick (w : disk) (fs : gmap path node) : disk :=
  {| files := fs; now := S (now w); running := running w; locked := locked w;
     skip_code := skip_code w; reached := reached w |}.

Definition run_command (c : command) (w : disk) : disk * Z :=
  match c with
  | Tasklist _ => (tick w (files w), if running w (now w) then 0%Z else 1%Z)
  | Taskkill _ => (tick w (files w), if running w (now w) then 0%Z else 128%Z)
  | Timeout _ => (tick w (files w), 0%Z)
  | Start _ => (tick w (files w), 0%Z)
  | Rmdir d => let r := rmdir w d in (tick w r.1, r.2)
  | Mkdir d => let r := mkdir w d in (tick w r.1, r.2)
  | Del f => let r := del w f in (tick w r.1, r.2)
  | Copy src dst => let r := copy w src dst in (tick w r.1, r.2)
  | Xcopy flags src dst =>
      if carries_on flags
      then let r := xcopy w src dst in (tick w r.1, xcopy_code w r.2)
      else let r := xcopy_stop w src dst in (tick w r.1, r.2)
  end.

(** [for %%F in ( * )] and [for /D %%D in ( * )]: the plain files and the
    directories of the working directory. *)
Definition top_files (fs : gmap path node) : list string :=
  omap (fun kv => match kv with ([n], File _) => Some n | _ => None end) (map_to_list fs).

Definition top_dirs (fs : gmap path node) : list string :=
  omap (fun kv => match kv with ([n], Dir) => Some n | _ => None end) (map_to_list fs).

#[global] Instance disk_shell : Shell disk := {|
  sh_run := run_command;
  sh_exist := fun t w => bool_decide (is_Some (files w !! t));
  sh_files := fun w => top_files (files w);
  sh_dirs := fun w => top_dirs (files w)
|}.

(** Every entry but the top-level ones lies in a directory. *)
Definition well_formed (fs : gmap path node) : Prop :=
  map_Forall (fun k _ => k <> [] /\ (removelast k = [] \/ fs !! removelast k = Some Dir)) fs.

(** A world in which nothing is ever held. *)
Definition unlocked (w : disk) : Prop := forall t k, locked w t k = false.

(** Nothing at or below [d] is ever held. *)
Definition free_below (d : path) (w : disk) : Prop :=
  forall t k, d `prefix_of` k -> locked w t k = false.


(** Commands by what they can do to an entry. *)
Definition removes (c : command) : bool :=
  match c with Rmdir _ => true | _ => false end.

Definition creates (c : command) : bool :=
  match c with Mkdir _ | Copy _ _ | Xcopy _ _ _ => true | _ => false end.

(** The state in which the two loops of BACKUP start. *)
Definition backup_prepared (s : state disk) : state disk :=
  exec (Mkdir backup_dir)
    (if sh_exist backup_dir (world s) then exec (Rmdir backup_dir) s else s).







(** What is left of the Backup and of the script, by control point, when
    nothing of them is held and no plain file is named [backup]. *)
Definition tidy (pc : label) (s : state disk) : Prop :=
  match pc with
  | Lentry | Lwait_loop | Lstep2 => file_at (files (world s)) ["backup"] = false
  | Lretry_copy | Lstep4 => files (world s) !! ["backup"] = Some Dir
  | Lcleanup => forall q, files (world s) !! ("backup" :: q) = None
  | Lexit =>
      (forall q, files (world s) !! ("backup" :: q) = None)
      /\ file_at (files (world s)) ["update_script.bat"] = false
  end.

(** The staging directory [d] is there up to CLEANUP and gone afterwards
    with all it holds. *)
Definition staged (d : path) (pc : label) (s : state disk) : Prop :=
  match pc with
  | Lexit => forall k, d `prefix_of` k -> files (world s) !! k = None
  | _ => dir_at (files (world s)) d = true
  end.


(** The update package is in the root, but for the script's own file. *)
Definition installed (fs0 fs : gmap path node) : Prop :=
  forall n q v, fs0 !! ("update" :: n :: q) = Some v ->
    n :: q <> ["update_script.bat"] -> fs !! (n :: q) = Some v.


(** The package stays as it was until an attempt succeeds, and then it is
    in the root, unless the machine has gone through ROLLBACK. *)
Definition applied_inv (fs0 : gmap path node) (pc : label) (s : state disk) : Prop :=
  match pc with
  | Lentry | Lwait_loop | Lstep2 => files (world s) = fs0
  | Lretry_copy | Lstep4 =>
      forall q, files (world s) !! ("update" :: q) = fs0 !! ("update" :: q)
  | Lcleanup | Lexit =>
      restore_copy ∈ commands (trace s) \/ installed fs0 (files (world s))
  end.



End Disk.

(* ===================================================================== *)
(** ** Concrete installations, systems and resources                      *)
(* ===================================================================== *)

Module Scenario.
Import Encoding Rpc Script Disk.
#[local] Open Scope list_scope.

Definition exe : wstring := L "C:\app\app.exe".

(** The script [RestartApp] writes for [exe]. *)
Definition script : params := Orchestrator.restart_script exe.

(** An installation with a staged update. *)
Definition installation : gmap path node :=
  list_to_map [
    (["app.exe"], File "app 1");
    (["data.dll"], File "data 1");
    (["lib"], Dir);
    (["lib"; "x.dll"], File "x 1");
    (["update_script.bat"], File "script");
    (["update"], Dir);
    (["update"; "app.exe"], File "app 2");
    (["update"; "extra.dll"], File "extra 2");
    (["update"; "lib"], Dir);
    (["update"; "lib"; "x.dll"], File "x 2")].

(** The application exits at once and nothing is locked. *)
Definition quiet : disk :=
  {| files := installation; now := 0;
     running := fun _ => false; locked := fun _ _ => false;
     skip_code := fun _ => 0%Z; reached := fun _ _ => true |}.

(** The application never leaves the process table. *)
Definition stuck : disk :=
  {| files := installation; now := 0;
     running := fun _ => true; locked := fun _ _ => false;
     skip_code := fun _ => 0%Z; reached := fun _ _ => true |}.

(** [extra.dll] can never be written in the root: APPLY fails three times,
    the restoring copy succeeds.  The package is listed by name, the files
    of a directory before its subdirectories, so an attempt gets to
    [app.exe] and stops at [extra.dll]. *)
Definition blocked : disk :=
  {| files := installation; now := 0;
     running := fun _ => false;
     locked := fun _ k => bool_decide (k = ["extra.dll"]);
     skip_code := fun _ => 0%Z;
     reached := fun _ k => bool_decide (k = ["app.exe"]) |}.




(** The copy of [data.dll] in the Backup is held from tick 3 on, once
    BACKUP has made it (a scanner reading the new file, say). *)
Definition backup_held : disk :=
  {| files := installation; now := 0;
     running := fun _ => false;
     locked := fun t k => (3 <=? t)%nat && bool_decide (k = ["backup"; "data.dll"]);
     skip_code := fun _ => 0%Z; reached := fun _ _ => true |}.

(** A Backup left behind by an interrupted run holds an old [data.dll],
    which is held until tick 6, while BACKUP runs; [extra.dll] can never be
    written in the root, so APPLY fails and ROLLBACK runs. *)
Definition stale_held : disk :=
  {| files := <[["backup"] := Dir]> (<[["backup"; "data.dll"] := File "data 0"]> installation);
     now := 0; running := fun _ => false;
     locked := fun t k =>
       bool_decide (k = ["extra.dll"])
       || ((t <? 6)%nat && bool_decide (k = ["backup"; "data.dll"]));
     skip_code := fun _ => 0%Z;
     reached := fun _ k => bool_decide (k = ["app.exe"]) |}.

(** A Backup left behind by an interrupted run. *)
Definition stale : disk :=
  {| files := <[["backup"] := Dir]> (<[["backup"; "app.exe"] := File "app 0"]> installation);
     now := 0; running := fun _ => false; locked := fun _ _ => false;
     skip_code := fun _ => 0%Z; reached := fun _ _ => true |}.

(** Version resources. *)
Definition english : LANGANDCODEPAGE := {| wLanguage := 0x0409; wCodePage := 0x04B0 |}.

Definition resource_with (productVersion : wstring) : version_resource :=
  {| verSize := 1024; fileVersionInfo := true;
     translation := Some [english];
     productVersionOf := fun _ => Some productVersion |}.

(** Systems. *)
Definition vista : os_version := {| wMajor := 6; wMinor := 0; wServicePack := 2 |}.

Definition host_of (opens spawns : bool) : Orchestrator.host :=
  {| Orchestrator.os := vista;
     Orchestrator.module_file_name := exe;
     Orchestrator.resource := resource_with (L "1.2.3+45");
     Orchestrator.ofstream_is_open := opens;
     Orchestrator.CreateProcess_success := spawns;
     Orchestrator.GetLastError := 5 |}.


End Scenario.

(* ===================================================================== *)
(** * Properties                                                         *)
(* ===================================================================== *)

Import Script Disk.
#[local] Open Scope list_scope.

(* ===================================================================== *)
(** ** Every run has the shape of its five phases                         *)
(* ===================================================================== *)

Section ScriptFacts.
Context {W : Type} `{Shell W}.
Variable p : params.

Lemma exec_trace c (s : state W) :
  trace (exec c s) = (trace s ++ [(c, ERRORLEVEL (exec c s))])%list.
Proof. reflexivity. Qed.

Lemma exec_COUNT c (s : state W) : COUNT (exec c s) = COUNT s.
Proof. reflexivity. Qed.

Lemma exec_RETRY c (s : state W) : RETRY (exec c s) = RETRY s.
Proof. reflexivity. Qed.

Lemma set_COUNT_trace v (s : state W) : trace (set_COUNT v s) = trace s.
Proof. reflexivity. Qed.

Lemma set_RETRY_trace v (s : state W) : trace (set_RETRY v s) = trace s.
Proof. reflexivity. Qed.

Lemma run_1 pc (s : state W) : run p 1 pc s = step p pc s.
Proof. simpl. by destruct (step p pc s). Qed.

Lemma run_S n pc (s : state W) :
  run p (S n) pc s = run p n (step p pc s).1 (step p pc s).2.
Proof. reflexivity. Qed.

Lemma run_add n m pc (s : state W) :
  run p (n + m) pc s = run p m (run p n pc s).1 (run p n pc s).2.
Proof. revert pc s. induction n as [|n IH]; intros pc s; simpl; [done | apply IH]. Qed.

Lemma run_exit n (s : state W) : run p n Lexit s = (Lexit, s).
Proof. induction n as [|n IH]; simpl; [done | apply IH]. Qed.

(** Reaching [Lexit] early: the remaining fuel changes nothing. *)
Lemma run_more n m pc (s s' : state W) :
  (n <= m)%nat -> run p n pc s = (Lexit, s') -> run p m pc s = (Lexit, s').
Proof.
  intros Hle Hn. replace m with (n + (m - n))%nat by lia.
  rewrite run_add, Hn. apply run_exit.
Qed.

(** The poll block, by cases on what the shell answered. *)
Lemma step_wait_loop (s : state W) :
  let s1 := exec (Tasklist (exeNameStr p)) s in
  let s2 := set_COUNT (COUNT s + 1) s1 in
  step p Lwait_loop s =
    if (ERRORLEVEL s1 =? 0)%Z then
      if (MAX_WAIT_ATTEMPTS <=? COUNT s)%Z
      then (Lstep2, exec (Taskkill (exeNameStr p)) s2)
      else (Lwait_loop, exec (Timeout 1) s2)
    else (Lstep2, s1).
Proof. reflexivity. Qed.

Lemma wait_phase k (s : state W) :
  (MAX_WAIT_ATTEMPTS - COUNT s <= Z.of_nat k)%Z ->
  exists n s' t, (1 <= n <= k + 1)%nat /\ run p n Lwait_loop s = (Lstep2, s')
    /\ trace s' = (trace s ++ t)%list /\ wait_trace (exeNameStr p) (COUNT s) t.
Proof.
  revert s. induction k as [|k IH]; intros s Hk.
  all: pose proof (step_wait_loop s) as Hstep; cbv zeta in Hstep.
  all: destruct (ERRORLEVEL (exec (Tasklist (exeNameStr p)) s) =? 0)%Z eqn:He;
    [apply Z.eqb_eq in He | apply Z.eqb_neq in He].
  all: try (exists 1%nat; eexists _, _; rewrite run_1, Hstep;
            split; [lia|]; split; [reflexivity|]; split;
            [rewrite exec_trace; reflexivity | by apply wait_gone]).
  all: destruct (MAX_WAIT_ATTEMPTS <=? COUNT s)%Z eqn:Hc;
    [apply Z.leb_le in Hc | apply Z.leb_gt in Hc];
    try (unfold MAX_WAIT_ATTEMPTS in *; lia).
  all: try (exists 1%nat; eexists _, _; rewrite run_1, Hstep;
            split; [lia|]; split; [reflexivity|]; split;
            [rewrite exec_trace, set_COUNT_trace, exec_trace, He, <- app_assoc; reflexivity
            | by apply wait_kill]).
  set (s1 := exec (Timeout 1)
               (set_COUNT (COUNT s + 1) (exec (Tasklist (exeNameStr p)) s))) in *.
  destruct (IH s1) as (n & s' & t & Hn & Hrun & Htr & Hwt).
  { subst s1. simpl. unfold MAX_WAIT_ATTEMPTS in *. lia. }
  exists (S n), s'. eexists. split; [lia|]. split.
  { rewrite run_S, Hstep. exact Hrun. }
  split.
  - rewrite Htr. subst s1.
    rewrite exec_trace, set_COUNT_trace, exec_trace, He, <- !app_assoc. reflexivity.
  - apply wait_again; [done|]. exact Hwt.
Qed.

Lemma backup_files_trace l (s : state W) :
  exists t, trace (fold_left backup_file l s) = (trace s ++ t)%list
    /\ Forall (fun e => backup_command e.1) t.
Proof.
  revert s. induction l as [|F l IH]; intros s; simpl.
  - exists []. by rewrite app_nil_r.
  - destruct (IH (backup_file s F)) as (t & Ht & Hall).
    unfold backup_file in *.
    destruct (negb (F =? "backup")%string); [|by exists t].
    destruct (negb (F =? "update_script.bat")%string); [|by exists t].
    eexists (_ :: t). rewrite Ht, exec_trace, <- app_assoc. split; [reflexivity|].
    constructor; [apply backup_copy | done].
Qed.

Lemma backup_subdirs_trace l (s : state W) :
  exists t, trace (fold_left backup_subdir l s) = (trace s ++ t)%list
    /\ Forall (fun e => backup_command e.1) t.
Proof.
  revert s. induction l as [|D l IH]; intros s; simpl.
  - exists []. by rewrite app_nil_r.
  - destruct (IH (backup_subdir s D)) as (t & Ht & Hall).
    unfold backup_subdir in *.
    destruct (negb (D =? "backup")%string); [|by exists t].
    destruct (negb (D =? "update")%string); [|by exists t].
    eexists (_ :: t). rewrite Ht, exec_trace, <- app_assoc. split; [reflexivity|].
    constructor; [apply backup_xcopy | done].
Qed.

Lemma backup_phase (s : state W) :
  exists s' t, step p Lstep2 s = (Lretry_copy, s') /\ RETRY s' = 0%Z
    /\ trace s' = (trace s ++ t)%list /\ Forall (fun e => backup_command e.1) t.
Proof.
  unfold step.
  set (s1 := if sh_exist backup_dir (world s) then exec (Rmdir backup_dir) s else s).
  assert (exists t1, trace s1 = (trace s ++ t1)%list
                     /\ Forall (fun e => backup_command e.1) t1) as (t1 & Ht1 & Hall1).
  { subst s1. destruct (sh_exist backup_dir (world s)).
    - eexists [_]. rewrite exec_trace. split; [reflexivity|].
      constructor; [apply backup_rmdir | done].
    - exists []. by rewrite app_nil_r. }
  set (s2 := exec (Mkdir backup_dir) s1).
  destruct (backup_files_trace (sh_files (world s2)) s2) as (t3 & Ht3 & Hall3).
  set (s3 := fold_left backup_file (sh_files (world s2)) s2) in *.
  destruct (backup_subdirs_trace (sh_dirs (world s3)) s3) as (t4 & Ht4 & Hall4).
  eexists _, (t1 ++ [(Mkdir backup_dir, _)] ++ t3 ++ t4)%list.
  split; [reflexivity|]. split; [reflexivity|]. split.
  - rewrite set_RETRY_trace, Ht4, Ht3. subst s2. rewrite exec_trace, Ht1.
    rewrite <- !app_assoc. reflexivity.
  - apply Forall_app. split; [done|]. constructor; [apply backup_mkdir|].
    apply Forall_app. done.
Qed.

Lemma step_retry_copy (s : state W) :
  let s1 := exec (apply_copy p) (set_RETRY (RETRY s + 1) s) in
  step p Lretry_copy s =
    if (ERRORLEVEL s1 =? 0)%Z then (Lcleanup, exec (Rmdir backup_dir) s1)
    else if (RETRY s + 1 <? MAX_RETRY_ATTEMPTS)%Z
         then (Lretry_copy, exec (Timeout RETRY_DELAY_SECONDS) s1)
         else (Lstep4, s1).
Proof. reflexivity. Qed.

Lemma apply_phase k (s : state W) :
  (MAX_RETRY_ATTEMPTS - (RETRY s + 1) <= Z.of_nat k)%Z ->
  exists n s' t l, (1 <= n <= k + 1)%nat /\ run p n Lretry_copy s = (l, s')
    /\ trace s' = (trace s ++ t)%list /\ apply_trace p (RETRY s) t l.
Proof.
  revert s. induction k as [|k IH]; intros s Hk.
  all: pose proof (step_retry_copy s) as Hstep; cbv zeta in Hstep.
  all: destruct (ERRORLEVEL (exec (apply_copy p) (set_RETRY (RETRY s + 1) s)) =? 0)%Z
         eqn:He; [apply Z.eqb_eq in He | apply Z.eqb_neq in He].
  all: try (exists 1%nat; eexists _, _, _; rewrite run_1, Hstep;
            split; [lia|]; split; [reflexivity|]; split;
            [rewrite exec_trace, exec_trace, set_RETRY_trace, He, <- app_assoc; reflexivity
            | by apply apply_ok]).
  all: destruct (RETRY s + 1 <? MAX_RETRY_ATTEMPTS)%Z eqn:Hr;
    [apply Z.ltb_lt in Hr | apply Z.ltb_ge in Hr]; try lia.
  all: try (exists 1%nat; eexists _, _, _; rewrite run_1, Hstep;
            split; [lia|]; split; [reflexivity|]; split;
            [rewrite exec_trace, set_RETRY_trace; reflexivity
            | by apply apply_fail]).
  set (s1 := exec (Timeout RETRY_DELAY_SECONDS)
               (exec (apply_copy p) (set_RETRY (RETRY s + 1) s))) in *.
  destruct (IH s1) as (n & s' & t & l & Hn & Hrun & Htr & Hat).
  { subst s1. simpl. lia. }
  exists (S n), s'. eexists _, l. split; [lia|]. split.
  { rewrite run_S, Hstep. exact Hrun. }
  split.
  - rewrite Htr. subst s1.
    rewrite exec_trace, exec_trace, set_RETRY_trace, <- !app_assoc. reflexivity.
  - apply apply_again; [done..|]. exact Hat.
Qed.

Lemma apply_trace_next r t l :
  apply_trace p r t l -> l = Lcleanup \/ l = Lstep4.
Proof. induction 1; auto. Qed.

Lemma rollback_phase (s : state W) :
  exists s' t, step p Lstep4 s = (Lcleanup, s')
    /\ trace s' = (trace s ++ t)%list /\ rollback_trace Lstep4 t.
Proof.
  eexists _, _. split; [reflexivity|]. split.
  - unfold step. rewrite exec_trace, exec_trace, <- app_assoc. reflexivity.
  - simpl. eauto.
Qed.

Lemma cleanup_phase (s : state W) :
  exists s' t, step p Lcleanup s = (Lexit, s')
    /\ trace s' = (trace s ++ t)%list /\ t.*1 = cleanup_commands p.
Proof.
  eexists _, _. split; [reflexivity|]. split.
  - unfold step. rewrite 4!exec_trace, <- !app_assoc. reflexivity.
  - reflexivity.
Qed.

(** Every run ends at [Lexit] within the fuel of [execute], and its trace
    is made of the five phases, whatever the shell answers. *)
Lemma execute_shape (w : W) :
  (execute p w).1 = Lexit /\ run_shape p (trace (execute p w).2)
  /\ exists s, execute p w = step p Lcleanup s.
Proof.
  unfold execute.
  set (s0 := set_COUNT 0 (initial w)).
  destruct (wait_phase 5 s0) as (n1 & s1 & wt & Hn1 & Hrun1 & Htr1 & Hwt);
    [subst s0; simpl; unfold MAX_WAIT_ATTEMPTS; lia|].
  destruct (backup_phase s1) as (s2 & bt & Hrun2 & Hretry & Htr2 & Hbt).
  destruct (apply_phase 2 s2) as (n3 & s3 & at_ & l & Hn3 & Hrun3 & Htr3 & Hat);
    [rewrite Hretry; unfold MAX_RETRY_ATTEMPTS; lia|].
  rewrite Hretry in Hat.
  assert (exists n4 s4 rt, (n4 <= 1)%nat /\ run p n4 l s3 = (Lcleanup, s4)
            /\ trace s4 = (trace s3 ++ rt)%list /\ rollback_trace l rt)
    as (n4 & s4 & rt & Hn4 & Hrun4 & Htr4 & Hrt).
  { destruct (apply_trace_next _ _ _ Hat) as [-> | ->].
    - exists 0%nat, s3, []. rewrite app_nil_r. split; [lia|]. done.
    - destruct (rollback_phase s3) as (s4 & rt & ? & ? & ?).
      exists 1%nat, s4, rt. rewrite run_1. done. }
  destruct (cleanup_phase s4) as (s5 & ct & Hrun5 & Htr5 & Hct).
  assert (run p (1 + (n1 + (1 + (n3 + (n4 + 1))))) Lentry (initial w) = (Lexit, s5)) as Hrun.
  { rewrite run_add, run_1.
    change (step p Lentry (initial w)) with (Lwait_loop, s0). cbn [fst snd].
    rewrite run_add, Hrun1. cbn [fst snd].
    rewrite run_add, run_1, Hrun2. cbn [fst snd].
    rewrite run_add, Hrun3. cbn [fst snd].
    rewrite run_add, Hrun4. cbn [fst snd].
    rewrite run_1. exact Hrun5. }
  apply (run_more _ enough_fuel) in Hrun; [|unfold enough_fuel; lia].
  rewrite Hrun. split; [reflexivity|]. cbn [fst snd]. split; [|by exists s4].
  rewrite Htr5, Htr4, Htr3, Htr2, Htr1. subst s0. simpl trace.
  rewrite <- !app_assoc. simpl app at 1.
  by econstructor.
Qed.


Lemma wait_trace_no_start exe c t : wait_trace exe c t -> Forall no_start t.
Proof. induction 1; repeat constructor; try done. Qed.

Lemma backup_no_start t :
  Forall (fun e => backup_command e.1) t -> Forall no_start t.
Proof.
  intros Hall. eapply Forall_impl; [exact Hall|].
  intros [c e] Hc x. simpl in *. by destruct Hc.
Qed.

Lemma apply_trace_no_start r t l : apply_trace p r t l -> Forall no_start t.
Proof. induction 1; repeat constructor; try done. Qed.

Lemma rollback_trace_no_start l t : rollback_trace l t -> Forall no_start t.
Proof.
  destruct l; simpl; try (intros ->; constructor).
  intros (e & e' & ->). repeat constructor; done.
Qed.

(** The trace of a run ends with the four commands of CLEANUP, and nothing
    before them starts a program. *)
Lemma shape_cleanup t :
  run_shape p t ->
  exists pre ct, t = (pre ++ ct)%list /\ commands ct = cleanup_commands p
    /\ Forall no_start pre.
Proof.
  intros [wt bt at_ rt ct next Hwt Hbt Hat Hrt Hct].
  exists (wt ++ bt ++ at_ ++ rt)%list, ct. split; [by rewrite <- !app_assoc|].
  split; [done|]. repeat (apply Forall_app; split).
  - by eapply wait_trace_no_start.
  - by apply backup_no_start.
  - by eapply apply_trace_no_start.
  - by eapply rollback_trace_no_start.
Qed.
End ScriptFacts.

(* ===================================================================== *)
(** ** The commands on the file-system model                              *)
(* ===================================================================== *)

Section DiskFacts.
Implicit Types (fs : gmap path node) (w : disk) (t k q : path) (v : node).

Lemma strip_Some p k q : strip p k = Some q <-> k = (p ++ q)%list.
Proof.
  revert k. induction p as [|a p IH]; intros k; simpl.
  - split; [by intros [= ->] | by intros ->].
  - destruct k as [|b k]; [split; [done | intros [=]]|].
    destruct (decide (a = b)) as [->|Hne].
    + rewrite IH. split; [by intros -> | by intros [= ->]].
    + split; [done | intros [= ? _]; done].
Qed.

Lemma strip_app p q : strip p (p ++ q)%list = Some q.
Proof. by apply strip_Some. Qed.

Lemma strip_self p : strip p p = Some [].
Proof. apply strip_Some. by rewrite List.app_nil_r. Qed.

Lemma strip_None p k : strip p k = None <-> forall q, k <> (p ++ q)%list.
Proof.
  split.
  - intros Hn q Hq. apply strip_Some in Hq. congruence.
  - intros Hall. destruct (strip p k) as [q|] eqn:Hs; [|done].
    apply strip_Some in Hs. by destruct (Hall q).
Qed.

Lemma xcopy_fold_lookup (can : path -> node -> bool) src dst base fs t :
  map_fold (xcopy_entry can src dst) base fs !! t =
    match strip dst t with
    | Some (n :: q) =>
        match fs !! (src ++ n :: q)%list with
        | Some v => if can t v then Some v else base !! t
        | None => base !! t
        end
    | _ => base !! t
    end.
Proof.
  revert t.
  apply (map_fold_weak_ind
    (fun r (m : gmap path node) => forall t, r !! t =
       match strip dst t with
       | Some (n :: q) =>
           match m !! (src ++ n :: q)%list with
           | Some v => if can t v then Some v else base !! t
           | None => base !! t
           end
       | _ => base !! t
       end)).
  - intros t. destruct (strip dst t) as [[|n q]|]; try done.
  - intros i x m r Hi0 IH t. unfold xcopy_entry.
    assert (m !! i = None) as Hi by exact Hi0. clear Hi0.
    destruct (strip src i) as [[|n' q']|] eqn:Hsi.
    + apply strip_Some in Hsi. rewrite List.app_nil_r in Hsi. subst i.
      rewrite IH. destruct (strip dst t) as [[|n q]|]; try done.
      rewrite lookup_insert_ne; [done|]. intros Heq.
      apply (f_equal length) in Heq. rewrite length_app in Heq. simpl in Heq. lia.
    + apply strip_Some in Hsi. subst i.
      destruct (strip dst t) as [[|n q]|] eqn:Hst.
      * apply strip_Some in Hst. rewrite List.app_nil_r in Hst. subst t.
        pose proof (IH dst) as IHd. rewrite strip_self in IHd.
        destruct (can (dst ++ n' :: q') x); [|done].
        rewrite lookup_insert_ne; [done|]. intros Heq.
        apply (f_equal length) in Heq. rewrite length_app in Heq. simpl in Heq. lia.
      * apply strip_Some in Hst. subst t.
        destruct (decide (n' :: q' = n :: q)) as [Heq|Hne].
        -- injection Heq as -> ->. rewrite lookup_insert_eq.
           destruct (can (dst ++ n :: q) x).
           ++ by rewrite lookup_insert_eq.
           ++ specialize (IH (dst ++ n :: q)%list). rewrite strip_app, Hi in IH. done.
        -- rewrite (lookup_insert_ne m); [|by intros ?%app_inv_head].
           specialize (IH (dst ++ n :: q)%list). rewrite strip_app in IH.
           destruct (can (dst ++ n' :: q') x); [|done].
           rewrite lookup_insert_ne; [done|by intros ?%app_inv_head].
      * destruct (can (dst ++ n' :: q') x).
        -- rewrite lookup_insert_ne.
           ++ specialize (IH t). by rewrite Hst in IH.
           ++ intros <-. by rewrite strip_app in Hst.
        -- specialize (IH t). by rewrite Hst in IH.
    + rewrite IH. destruct (strip dst t) as [[|n q]|]; try done.
      rewrite lookup_insert_ne; [done|]. intros ->. by rewrite strip_app in Hsi.
Qed.

Lemma mkdirs_lookup dst fs t :
  mkdirs dst fs !! t =
    match fs !! t with
    | Some v => Some v
    | None => if bool_decide (t ∈ prefixes dst) then Some Dir else None
    end.
Proof.
  unfold mkdirs. rewrite lookup_union, lookup_gset_to_gmap.
  destruct (fs !! t) as [v|]; simpl.
  - by destruct (guard _).
  - case_bool_decide as Hin.
    + rewrite option_guard_True; [done|]. by apply elem_of_list_to_set.
    + rewrite option_guard_False; [done|]. by rewrite elem_of_list_to_set.
Qed.

Lemma stays_true w k :
  stays w k = true <->
  exists k' v, files w !! k' = Some v /\ k `prefix_of` k' /\ locked w (now w) k' = true.
Proof.
  unfold stays. rewrite existsb_exists. split.
  - intros ([k' v] & Hin & Hp). apply andb_true_iff in Hp as [Hp Hl].
    apply bool_decide_eq_true in Hp. exists k', v. split; [|done].
    by apply elem_of_map_to_list, list_elem_of_In.
  - intros (k' & v & Hl & Hp & Hk). exists (k', v). split.
    + by apply list_elem_of_In, elem_of_map_to_list.
    + cbn [fst]. by rewrite bool_decide_eq_true_2, Hk.
Qed.

Lemma stays_free w k :
  (forall k', k `prefix_of` k' -> locked w (now w) k' = false) -> stays w k = false.
Proof.
  intros Hfree. destruct (stays w k) eqn:Hs; [|done].
  apply stays_true in Hs as (k' & v & _ & Hp & Hl). by rewrite Hfree in Hl.
Qed.

Lemma stays_below d w k :
  free_below d w -> d `prefix_of` k -> stays w k = false.
Proof.
  intros Hfree Hd. apply stays_free. intros k' Hk. apply Hfree. by etrans.
Qed.

Lemma rmdir_lookup w d k :
  (rmdir w d).1 !! k =
    if dir_at (files w) d
    then (if decide (d `prefix_of` k)
          then (if stays w k then files w !! k else None)
          else files w !! k)
    else files w !! k.
Proof.
  unfold rmdir. destruct (dir_at (files w) d); [|done]. cbn [fst].
  rewrite map_lookup_filter. destruct (files w !! k) as [v|]; cbn.
  - destruct (decide (d `prefix_of` k)).
    + destruct (stays w k) eqn:Hs.
      * by rewrite option_guard_True by auto.
      * rewrite option_guard_False; [done|]. intros [?|?]; [done|congruence].
    + by rewrite option_guard_True by auto.
  - destruct (decide _); [|done]. by destruct (stays w k).
Qed.

(** [rmdir] changes nothing outside its directory. *)
Lemma rmdir_outside w d k :
  ~ d `prefix_of` k -> (rmdir w d).1 !! k = files w !! k.
Proof.
  intros Hk. rewrite rmdir_lookup. destruct (dir_at _ _); [|done].
  by rewrite decide_False.
Qed.

(** Where nothing is held the whole directory goes. *)
Lemma rmdir_free w d k :
  (forall k', d `prefix_of` k' -> locked w (now w) k' = false) ->
  (rmdir w d).1 !! k =
    if dir_at (files w) d then (if decide (d `prefix_of` k) then None else files w !! k)
    else files w !! k.
Proof.
  intros Hfree. rewrite rmdir_lookup. destruct (dir_at _ _); [|done].
  destruct (decide _) as [Hd|]; [|done].
  rewrite stays_free; [done|]. intros k' Hk. apply Hfree. by etrans.
Qed.

Lemma xcopy_files w src dst :
  (xcopy w src dst).1 =
    if (bool_decide (src = []) || dir_at (files w) src)
       && forallb (fun a => negb (file_at (files w) a)) (prefixes dst)
    then map_fold (xcopy_entry (writable w) src dst) (mkdirs dst (files w)) (files w)
    else files w.
Proof. unfold xcopy. by destruct (_ && _). Qed.

Lemma xcopy_stop_files w src dst :
  (xcopy_stop w src dst).1 =
    if (bool_decide (src = []) || dir_at (files w) src)
       && forallb (fun a => negb (file_at (files w) a)) (prefixes dst)
    then map_fold (xcopy_entry (wrote w src dst) src dst) (mkdirs dst (files w)) (files w)
    else files w.
Proof. unfold xcopy_stop. by destruct (_ && _). Qed.

Lemma wrote_writable w src dst t v : wrote w src dst t v = true -> writable w t v = true.
Proof.
  unfold wrote. destruct (bool_decide _); [done|]. by intros [? _]%andb_true_iff.
Qed.

(** No command but [rmdir] removes a directory, and none turns one into a
    file. *)
Lemma writable_not_dir w t c : files w !! t = Some Dir -> writable w t (File c) = false.
Proof. intros Ht. unfold writable, dir_at. rewrite Ht. simpl. by rewrite andb_false_r. Qed.

Lemma wrote_not_dir w src dst t c :
  files w !! t = Some Dir -> wrote w src dst t (File c) = false.
Proof.
  intros Ht. destruct (wrote w src dst t (File c)) eqn:Hw; [|done].
  apply wrote_writable in Hw. by rewrite (writable_not_dir w t c Ht) in Hw.
Qed.

Lemma xcopy_keeps_dir w src dst t :
  files w !! t = Some Dir -> (xcopy w src dst).1 !! t = Some Dir.
Proof.
  intros Ht. rewrite xcopy_files. destruct (_ && _); [|done].
  rewrite xcopy_fold_lookup, mkdirs_lookup, Ht.
  destruct (strip dst t) as [[|n q]|]; try done.
  destruct (files w !! (src ++ n :: q)) as [[c|]|]; try done.
  - by rewrite writable_not_dir.
  - by destruct (writable _ _ _).
Qed.

Lemma xcopy_stop_keeps_dir w src dst t :
  files w !! t = Some Dir -> (xcopy_stop w src dst).1 !! t = Some Dir.
Proof.
  intros Ht. rewrite xcopy_stop_files. destruct (_ && _); [|done].
  rewrite xcopy_fold_lookup, mkdirs_lookup, Ht.
  destruct (strip dst t) as [[|n q]|]; try done.
  destruct (files w !! (src ++ n :: q)) as [[c|]|]; try done.
  - by rewrite wrote_not_dir.
  - by destruct (wrote _ _ _ _ _).
Qed.

Lemma copy_keeps_dir w src dst t :
  files w !! t = Some Dir -> (copy w src dst).1 !! t = Some Dir.
Proof.
  intros Ht. unfold copy. destruct (files w !! src) as [[c|]|]; try done.
  destruct (decide (dst = t)) as [->|Hne].
  - unfold dir_at at 2. rewrite Ht. simpl. by rewrite andb_false_r.
  - destruct (_ && _); [|done]. simpl. by rewrite lookup_insert_ne.
Qed.

Lemma mkdir_keeps w d t v :
  files w !! t = Some v -> (mkdir w d).1 !! t = Some v.
Proof.
  intros Ht. unfold mkdir. destruct (files w !! d) eqn:Hd; [done|].
  destruct (_ && _); [|done]. cbn [fst]. rewrite lookup_insert_ne; [done|congruence].
Qed.

Lemma del_keeps_dir w f t :
  files w !! t = Some Dir -> (del w f).1 !! t = Some Dir.
Proof.
  intros Ht. unfold del, file_at. destruct (files w !! f) as [[c|]|] eqn:Hf; try done.
  destruct (negb _); [|done]. cbn [andb fst]. rewrite lookup_delete_ne; [done|congruence].
Qed.



Lemma run_command_keeps_dir c w t :
  removes c = false ->
  files w !! t = Some Dir -> files (run_command c w).1 !! t = Some Dir.
Proof.
  intros Hc Ht. destruct c; try done; simpl.
  - by apply mkdir_keeps.
  - by apply copy_keeps_dir.
  - destruct (carries_on flags); [by apply xcopy_keeps_dir | by apply xcopy_stop_keeps_dir].
  - by apply del_keeps_dir.
Qed.

Lemma run_command_keeps_none c w t :
  creates c = false ->
  files w !! t = None -> files (run_command c w).1 !! t = None.
Proof.
  intros Hc Ht. destruct c; try done; simpl.
  - rewrite rmdir_lookup, Ht. destruct (dir_at _ _); [|done].
    destruct (decide _); [|done]. by destruct (stays _ _).
  - unfold del. destruct (_ && _); [|done]. cbn [fst].
    apply lookup_delete_None. by right.
Qed.

Lemma rmdir_gone w d :
  (forall k', d `prefix_of` k' -> locked w (now w) k' = false) ->
  dir_at (rmdir w d).1 d = false.
Proof.
  intros Hfree. unfold dir_at at 1. rewrite rmdir_free by done.
  destruct (dir_at (files w) d) eqn:Hd.
  - by rewrite decide_True.
  - unfold dir_at in Hd. by destruct (files w !! d) as [[|]|].
Qed.

Lemma rmdir_dir_None w d :
  (forall k', d `prefix_of` k' -> locked w (now w) k' = false) ->
  files w !! d = Some Dir -> (rmdir w d).1 !! d = None.
Proof.
  intros Hfree Hd. rewrite rmdir_free by done. unfold dir_at. rewrite Hd.
  by rewrite decide_True.
Qed.

(** [rmdir] of a directory in which nothing is held leaves nothing of
    it. *)
Lemma rmdir_below_None w d k :
  (forall k', d `prefix_of` k' -> locked w (now w) k' = false) ->
  dir_at (files w) d = true -> d `prefix_of` k -> (rmdir w d).1 !! k = None.
Proof.
  intros Hfree Hd Hk. rewrite rmdir_free by done. rewrite Hd. by rewrite decide_True.
Qed.

End DiskFacts.

(* ===================================================================== *)
(** ** Where the Backup directory exists                                  *)
(* ===================================================================== *)

Section Invariant.
Variable p : params.
Implicit Types (s : state disk) (t : path).

Lemma exec_files c s : files (world (exec c s)) = files (run_command c (world s)).1.
Proof. reflexivity. Qed.

Lemma exec_keeps_dir c s t :
  removes c = false ->
  files (world s) !! t = Some Dir -> files (world (exec c s)) !! t = Some Dir.
Proof. intros. rewrite exec_files. by apply run_command_keeps_dir. Qed.

Lemma exec_keeps_none c s t :
  creates c = false ->
  files (world s) !! t = None -> files (world (exec c s)) !! t = None.
Proof. intros. rewrite exec_files. by apply run_command_keeps_none. Qed.

Lemma backup_files_keep_dir l s t :
  files (world s) !! t = Some Dir ->
  files (world (fold_left backup_file l s)) !! t = Some Dir.
Proof.
  revert s. induction l as [|F l IH]; intros s Ht; simpl; [done|].
  apply IH. unfold backup_file.
  repeat (destruct (negb _); [|done]). by apply exec_keeps_dir.
Qed.

Lemma backup_subdirs_keep_dir l s t :
  files (world s) !! t = Some Dir ->
  files (world (fold_left backup_subdir l s)) !! t = Some Dir.
Proof.
  revert s. induction l as [|D l IH]; intros s Ht; simpl; [done|].
  apply IH. unfold backup_subdir.
  repeat (destruct (negb _); [|done]). by apply exec_keeps_dir.
Qed.

(** What is held, and when, is the world's own: no command changes it. *)
Lemma exec_locked c s : locked (world (exec c s)) = locked (world s).
Proof. destruct c; try done. cbn. by destruct (carries_on flags). Qed.

Lemma backup_files_locked l s :
  locked (world (fold_left backup_file l s)) = locked (world s).
Proof.
  revert s. induction l as [|F l IH]; intros s; [done|]. cbn [fold_left].
  rewrite IH. unfold backup_file. repeat (destruct (negb _); [|done]). apply exec_locked.
Qed.

Lemma backup_subdirs_locked l s :
  locked (world (fold_left backup_subdir l s)) = locked (world s).
Proof.
  revert s. induction l as [|D l IH]; intros s; [done|]. cbn [fold_left].
  rewrite IH. unfold backup_subdir. repeat (destruct (negb _); [|done]). apply exec_locked.
Qed.

Lemma step_locked pc s : locked (world (step p pc s).2) = locked (world s).
Proof.
  destruct pc.
  - done.
  - rewrite step_wait_loop. cbv zeta.
    destruct (_ =? _)%Z; [destruct (_ <=? _)%Z|]; cbn [snd]; by rewrite ?exec_locked.
  - unfold step. cbn [snd]. change (world (set_RETRY 0 ?x)) with (world x).
    rewrite backup_subdirs_locked, backup_files_locked, exec_locked.
    destruct (sh_exist _ _); by rewrite ?exec_locked.
  - rewrite step_retry_copy. cbv zeta.
    destruct (_ =? _)%Z; [|destruct (_ <? _)%Z]; cbn [snd]; by rewrite ?exec_locked.
  - unfold step. cbn [snd]. by rewrite !exec_locked.
  - unfold step. cbn [snd]. by rewrite !exec_locked.
  - done.
Qed.

Lemma run_locked n pc s : locked (world (run p n pc s).2) = locked (world s).
Proof.
  revert pc s. induction n as [|n IH]; intros pc s; [done|].
  rewrite run_S, IH. apply step_locked.
Qed.

Lemma free_below_locked d (w w' : disk) :
  locked w' = locked w -> free_below d w -> free_below d w'.
Proof. intros Hl Hfree t k Hk. rewrite Hl. by apply Hfree. Qed.

Lemma exec_free_below d c s :
  free_below d (world s) -> free_below d (world (exec c s)).
Proof. apply free_below_locked, exec_locked. Qed.

Lemma step_free_below d pc s :
  free_below d (world s) -> free_below d (world (step p pc s).2).
Proof. apply free_below_locked, step_locked. Qed.

Lemma run_free_below d n pc s :
  free_below d (world s) -> free_below d (world (run p n pc s).2).
Proof. apply free_below_locked, run_locked. Qed.

Lemma free_below_now d (w : disk) :
  free_below d w -> forall k', d `prefix_of` k' -> locked w (now w) k' = false.
Proof. intros Hfree k' Hk. by apply Hfree. Qed.

(** With nothing held in [backup], [mkdir] makes the directory and [rmdir]
    takes it away. *)
Lemma exec_mkdir_backup s :
  free_below ["backup"] (world s) -> files (world s) !! ["backup"] = None ->
  files (world (exec (Mkdir backup_dir) s)) !! ["backup"] = Some Dir.
Proof.
  intros Hfree Hnone. rewrite exec_files. cbn [run_command fst snd].
  change (files (tick ?w ?f)) with f. unfold mkdir, backup_dir. rewrite Hnone.
  rewrite (Hfree _ ["backup"]) by done. cbn. apply lookup_insert_eq.
Qed.

Lemma exec_rmdir_backup s :
  free_below ["backup"] (world s) -> files (world s) !! ["backup"] = Some Dir ->
  files (world (exec (Rmdir backup_dir) s)) !! ["backup"] = None.
Proof.
  intros Hfree Hdir. rewrite exec_files. cbn [run_command fst snd].
  change (files (tick ?w ?f)) with f. apply rmdir_dir_None; [|done].
  by apply free_below_now.
Qed.



Lemma run_command_no_new_dir c (w : disk) t :
  creates c = false ->
  dir_at (files w) t = false -> dir_at (files (run_command c w).1) t = false.
Proof.
  intros Hc Ht. destruct c; try done; cbn [run_command fst snd];
    change (files (tick ?w ?f)) with f.
  - unfold dir_at at 1. rewrite rmdir_lookup.
    destruct (dir_at (files w) dir); [|exact Ht].
    destruct (decide _); [|exact Ht]. destruct (stays _ _); [exact Ht|done].
  - unfold dir_at in *. unfold del. destruct (_ && _); [|done]. cbn [fst].
    destruct (decide (file = t)) as [->|Hne].
    + by rewrite lookup_delete_eq.
    + by rewrite lookup_delete_ne.
Qed.

Lemma exec_no_new_dir c s t :
  creates c = false ->
  dir_at (files (world s)) t = false -> dir_at (files (world (exec c s))) t = false.
Proof. intros. rewrite exec_files. by apply run_command_no_new_dir. Qed.
End Invariant.

(* ===================================================================== *)
(** ** What BACKUP leaves in the Backup                                   *)
(* ===================================================================== *)

Section Paths.
Implicit Types (fs : gmap path node) (t k q a : path).

Lemma elem_of_prefixes a t :
  a ∈ prefixes t <-> a <> [] /\ a `prefix_of` t.
Proof.
  unfold prefixes. rewrite list_elem_of_fmap. split.
  - intros (i & -> & Hi). apply elem_of_seq in Hi. split.
    + destruct t; simpl in *; [lia|]. destruct i; [lia|done].
    + apply prefix_take.
  - intros (Hne & q & ->). exists (length a). split.
    + by rewrite take_app_length.
    + apply elem_of_seq. rewrite length_app. destruct a; [done|simpl; lia].
Qed.

Lemma removelast_snoc {A} (l : list A) x : removelast (l ++ [x]) = l.
Proof. apply removelast_last. Qed.

Lemma removelast_cons_cons {A} (x y : A) l :
  removelast (x :: y :: l) = x :: removelast (y :: l).
Proof. reflexivity. Qed.

(** In a well-formed tree whatever lies above an entry is a directory. *)
Lemma well_formed_above fs k n q v :
  well_formed fs -> fs !! (k ++ n :: q) = Some v -> k <> [] -> fs !! k = Some Dir.
Proof.
  intros Hwf. revert n v. induction q as [|x q IH] using rev_ind; intros n v Hv Hk.
  - destruct (Hwf _ _ Hv) as [_ Hp]. rewrite removelast_snoc in Hp.
    by destruct Hp.
  - destruct (Hwf _ _ Hv) as [_ Hp].
    replace (k ++ n :: q ++ [x]) with ((k ++ n :: q) ++ [x]) in Hp
      by by rewrite <- app_assoc.
    rewrite removelast_snoc in Hp. destruct Hp as [Hp|Hp].
    + by destruct k.
    + by eapply IH.
Qed.

Lemma well_formed_below fs k n q :
  well_formed fs -> k <> [] -> fs !! k <> Some Dir -> fs !! (k ++ n :: q) = None.
Proof.
  intros Hwf Hk Hnd. destruct (fs !! (k ++ n :: q)) as [v|] eqn:Hv; [|done].
  by destruct Hnd; eapply well_formed_above.
Qed.

Lemma prefix_backup_cons n (k : path) : [n] `prefix_of` k <-> exists q, k = n :: q.
Proof. split; intros [q ->]; by exists q. Qed.


End Paths.



Section Backup.
Variable p : params.
Implicit Types (fs : gmap path node) (w : disk) (s : state disk) (t k q a : path).

Lemma not_prefix_backup n (q : path) : n <> "backup" -> ¬ ["backup"] `prefix_of` n :: q.
Proof. intros Hn [q' [= ? _]]. done. Qed.








Lemma step2_unfold s :
  step p Lstep2 s =
    let s2 := backup_prepared s in
    let s3 := fold_left backup_file (sh_files (world s2)) s2 in
    let s4 := fold_left backup_subdir (sh_dirs (world s3)) s3 in
    (Lretry_copy, set_RETRY 0 s4).
Proof. reflexivity. Qed.





(** BACKUP writes into [backup] and nowhere else, whatever is held and
    whatever an earlier run has left there. *)
Lemma copy_outside w F k :
  ¬ ["backup"] `prefix_of` k -> (copy w [F] ["backup"; F]).1 !! k = files w !! k.
Proof.
  intros Hk. unfold copy. destruct (files w !! [F]) as [[c|]|]; try done.
  destruct (_ && _); [|done]. cbn [fst]. rewrite lookup_insert_ne; [done|].
  intros <-. apply Hk. by exists [F].
Qed.

Lemma xcopy_outside w D k :
  ¬ ["backup"] `prefix_of` k -> (xcopy w [D] ["backup"; D]).1 !! k = files w !! k.
Proof.
  intros Hk. rewrite xcopy_files. destruct (_ && _); [|done].
  rewrite xcopy_fold_lookup, mkdirs_lookup.
  assert (strip ["backup"; D] k = None) as ->.
  { apply strip_None. intros q ->. apply Hk. by eexists. }
  destruct (files w !! k); [done|].
  case_bool_decide as Hin'; [|done].
  apply elem_of_prefixes in Hin' as [Hne [q' Hq']]. destruct Hk.
  destruct k as [|x k]; [done|]. injection Hq' as <- _. by eexists.
Qed.

Lemma fold_backup_file_outside l s k :
  ¬ ["backup"] `prefix_of` k ->
  files (world (fold_left backup_file l s)) !! k = files (world s) !! k.
Proof.
  intros Hk. revert s. induction l as [|F l IH]; intros s; [done|]. cbn [fold_left].
  rewrite IH. unfold backup_file. repeat (destruct (negb _); [|done]).
  rewrite exec_files. by apply copy_outside.
Qed.

Lemma fold_backup_subdir_outside l s k :
  ¬ ["backup"] `prefix_of` k ->
  files (world (fold_left backup_subdir l s)) !! k = files (world s) !! k.
Proof.
  intros Hk. revert s. induction l as [|D l IH]; intros s; [done|]. cbn [fold_left].
  rewrite IH. unfold backup_subdir. repeat (destruct (negb _); [|done]).
  rewrite exec_files. by apply xcopy_outside.
Qed.

Lemma backup_outside s k :
  ¬ ["backup"] `prefix_of` k ->
  files (world (step p Lstep2 s).2) !! k = files (world s) !! k.
Proof.
  intros Hk. rewrite step2_unfold. cbv zeta. cbn [snd].
  change (world (set_RETRY 0 ?x)) with (world x).
  rewrite fold_backup_subdir_outside, fold_backup_file_outside by done.
  unfold backup_prepared. rewrite exec_files. cbn [run_command fst snd].
  change (files (tick ?w ?f)) with f. unfold mkdir.
  set (s1 := if sh_exist backup_dir (world s) then exec (Rmdir backup_dir) s else s).
  assert (files (world s1) !! k = files (world s) !! k) as H1.
  { subst s1. destruct (sh_exist _ _); [|done]. rewrite exec_files.
    cbn [run_command fst snd]. change (files (tick ?w ?f)) with f. by apply rmdir_outside. }
  destruct (files (world s1) !! backup_dir); [done|].
  destruct (_ && _); [|done]. cbn [fst]. rewrite lookup_insert_ne; [done|].
  intros <-. by apply Hk.
Qed.
End Backup.

(* ===================================================================== *)
(** ** Failed attempts, the restoring copy and the cleanup                *)
(* ===================================================================== *)

Section Kinds.
Implicit Types (fs : gmap path node) (w : disk) (s : state disk) (t k q : path).




End Kinds.

Section Rooted.
Variable p : params.
Implicit Types (fs : gmap path node) (w : disk) (s : state disk) (t k q : path).





End Rooted.

Section Rollback.
Variable p : params.
Hypothesis Hupdate : updateDirStr p = ["update"].
Hypothesis Hdest : destDirStr p = [].
Implicit Types (fs : gmap path node) (w : disk) (s : state disk) (t k q a : path).

Lemma mkdirs_root fs : mkdirs [] fs = fs.
Proof.
  apply map_eq. intros t. rewrite mkdirs_lookup. destruct (fs !! t); [done|].
  by rewrite bool_decide_eq_false_2 by apply not_elem_of_nil.
Qed.

(** One attempt of APPLY writes, at most, what the package holds. *)
Lemma apply_copy_lookup w n q :
  (xcopy_stop w ["update"] []).1 !! (n :: q) =
    match files w !! ("update" :: n :: q) with
    | Some v =>
        if (dir_at (files w) ["update"]) && wrote w ["update"] [] (n :: q) v
        then Some v else files w !! (n :: q)
    | None => files w !! (n :: q)
    end.
Proof.
  rewrite xcopy_stop_files. cbn [prefixes length seq fmap list_fmap forallb andb orb].
  rewrite andb_true_r.
  rewrite bool_decide_eq_false_2 by done. cbn [orb].
  destruct (dir_at (files w) ["update"]).
  - rewrite xcopy_fold_lookup, mkdirs_root. cbn [strip app andb].
    destruct (files w !! ("update" :: n :: q)); [|done]. done.
  - cbn [andb]. by destruct (files w !! ("update" :: n :: q)).
Qed.


Lemma timeout_files n s : files (world (exec (Timeout n) s)) = files (world s).
Proof. reflexivity. Qed.






Lemma exec_rmdir_outside s d t :
  ~ d `prefix_of` t ->
  files (world (exec (Rmdir d) s)) !! t = files (world s) !! t.
Proof. intros Ht. rewrite exec_files. by apply rmdir_outside. Qed.


Lemma exec_del_lookup s f t :
  t <> f -> files (world (exec (Del f) s)) !! t = files (world s) !! t.
Proof.
  intros Hne. rewrite exec_files. cbn [run_command fst snd].
  change (files (tick ?w ?f)) with f. unfold del.
  destruct (_ && _); [|done]. cbn [fst]. by rewrite lookup_delete_ne.
Qed.



End Rollback.

(* ===================================================================== *)
(** ** BACKUP leaves nothing out but what it skips                        *)
(* ===================================================================== *)

Section Complete.
Variable p : params.
Implicit Types (fs : gmap path node) (w : disk) (s : state disk) (t k q a : path).



Lemma exec_unlocked c s : unlocked (world s) -> unlocked (world (exec c s)).
Proof. intros Hu t k. rewrite exec_locked. apply Hu. Qed.








Lemma backup_subdir_unlocked s D : unlocked (world s) -> unlocked (world (backup_subdir s D)).
Proof.
  intros Hu. unfold backup_subdir. repeat (destruct (negb _); [|done]).
  by apply exec_unlocked.
Qed.




Lemma fold_backup_subdir_unlocked l s :
  unlocked (world s) -> unlocked (world (fold_left backup_subdir l s)).
Proof.
  revert s. induction l as [|D l IH]; intros s Hu; [done|].
  by apply IH, backup_subdir_unlocked.
Qed.







End Complete.

(* ===================================================================== *)
(** ** Counting in traces                                                 *)
(* ===================================================================== *)

Section TraceFacts.
Context {W : Type} `{Shell W}.
Variable p : params.

Lemma occurrences_app c (t1 t2 : list (command * Z)) :
  occurrences c (t1 ++ t2) = (occurrences c t1 + occurrences c t2)%nat.
Proof. unfold occurrences, codes_of. by rewrite filter_app, fmap_app, length_app. Qed.

Lemma occurrences_nil c : occurrences c [] = 0%nat.
Proof. reflexivity. Qed.

Lemma occurrences_none c (t : list (command * Z)) :
  Forall (fun e => e.1 <> c) t -> occurrences c t = 0%nat.
Proof.
  unfold occurrences, codes_of. induction 1 as [|e t He _ IH]; [done|].
  by rewrite filter_cons_False.
Qed.

Lemma occurrences_cons c e (t : list (command * Z)) :
  occurrences c (e :: t) =
    ((if decide (e.1 = c) then 1 else 0) + occurrences c t)%nat.
Proof.
  unfold occurrences, codes_of. destruct (decide (e.1 = c)).
  - by rewrite filter_cons_True.
  - by rewrite filter_cons_False.
Qed.

(** A process that every poll still finds is polled six times. *)
Lemma wait_trace_all_running exe c t :
  wait_trace exe c t ->
  Forall (fun e => e.1 = Tasklist exe -> e.2 = 0%Z) t ->
  (0 <= c <= MAX_WAIT_ATTEMPTS)%Z ->
  occurrences (Tasklist exe) t = Z.to_nat (MAX_WAIT_ATTEMPTS + 1 - c).
Proof.
  unfold MAX_WAIT_ATTEMPTS. induction 1 as [c e He|c e' Hc|c e' t Hc Hw IH]; intros Hall Hr.
  - apply Forall_cons in Hall as [Hall _]. by destruct He; apply Hall.
  - rewrite !occurrences_cons. cbn [fst]. rewrite decide_True, decide_False by done.
    unfold MAX_WAIT_ATTEMPTS in Hc. rewrite occurrences_nil.
    lia.
  - rewrite !occurrences_cons. cbn [fst]. rewrite decide_True, decide_False by done.
    unfold MAX_WAIT_ATTEMPTS in Hc.
    rewrite IH; [lia| |lia]. by do 2 apply Forall_cons in Hall as [_ Hall].
Qed.

(** In general the polls number at most six. *)
Lemma wait_trace_polls exe c t :
  wait_trace exe c t -> (0 <= c <= MAX_WAIT_ATTEMPTS)%Z ->
  (occurrences (Tasklist exe) t <= Z.to_nat (MAX_WAIT_ATTEMPTS + 1 - c))%nat.
Proof.
  unfold MAX_WAIT_ATTEMPTS. induction 1 as [c e He|c e' Hc|c e' t Hc Hw IH]; intros Hr.
  - rewrite occurrences_cons, occurrences_nil. cbn [fst]. rewrite decide_True by done. lia.
  - rewrite !occurrences_cons. cbn [fst]. rewrite decide_True, decide_False by done.
    rewrite occurrences_nil. lia.
  - rewrite !occurrences_cons. cbn [fst]. rewrite decide_True, decide_False by done.
    unfold MAX_WAIT_ATTEMPTS in Hc. specialize (IH ltac:(lia)). lia.
Qed.


Lemma backup_no_poll exe t :
  Forall (fun e => backup_command e.1) t -> Forall (no_poll exe) t.
Proof.
  intros Hall. eapply Forall_impl; [exact Hall|].
  intros [c e] Hc. unfold no_poll. simpl in *. by destruct Hc.
Qed.

Lemma apply_trace_no_poll exe r t l : apply_trace p r t l -> Forall (no_poll exe) t.
Proof. induction 1; repeat constructor; try done. Qed.

Lemma rollback_trace_no_poll exe l t : rollback_trace l t -> Forall (no_poll exe) t.
Proof.
  destruct l; simpl; try (intros ->; constructor).
  intros (e & e' & ->). repeat constructor; done.
Qed.

Lemma cleanup_no_poll exe (t : list (command * Z)) :
  t.*1 = cleanup_commands p -> Forall (no_poll exe) t.
Proof.
  intros Ht. apply Forall_forall. intros e He. unfold no_poll.
  assert (e.1 ∈ cleanup_commands p) as Hin by (rewrite <- Ht; by apply list_elem_of_fmap_2).
  unfold cleanup_commands in Hin.
  repeat (apply elem_of_cons in Hin as [->|Hin]; [done|]). by apply elem_of_nil in Hin.
Qed.

(** The four ways APPLY can go. *)
Lemma apply_trace_cases t l :
  apply_trace p 0 t l ->
  let A := apply_copy p in
  let T := Timeout RETRY_DELAY_SECONDS in
  (exists d, t = [(A, 0%Z); (Rmdir ["backup"], d)] /\ l = Lcleanup)
  \/ (exists e1 d1 d, e1 <> 0%Z
       /\ t = [(A, e1); (T, d1); (A, 0%Z); (Rmdir ["backup"], d)] /\ l = Lcleanup)
  \/ (exists e1 d1 e2 d2 d, e1 <> 0%Z /\ e2 <> 0%Z
       /\ t = [(A, e1); (T, d1); (A, e2); (T, d2); (A, 0%Z); (Rmdir ["backup"], d)]
       /\ l = Lcleanup)
  \/ (exists e1 d1 e2 d2 e3, e1 <> 0%Z /\ e2 <> 0%Z /\ e3 <> 0%Z
       /\ t = [(A, e1); (T, d1); (A, e2); (T, d2); (A, e3)] /\ l = Lstep4).
Proof.
  intros Hat A T.
  inversion Hat as [? ?|? e1 d1 t1 l1 He1 Hr1 Hat1|? e1 He1 Hr1]; subst;
    [left; by eexists | | unfold MAX_RETRY_ATTEMPTS in *; lia].
  inversion Hat1 as [? ?|? e2 d2 t2 l2 He2 Hr2 Hat2|? e2 He2 Hr2]; subst;
    [right; left; by eexists e1, d1, _ | | unfold MAX_RETRY_ATTEMPTS in *; lia].
  inversion Hat2 as [? ?|? e3 d3 t3 l3 He3 Hr3 Hat3|? e3 He3 Hr3]; subst;
    [right; right; left; by eexists e1, d1, e2, d2, _
    | unfold MAX_RETRY_ATTEMPTS in *; lia
    | right; right; right; by eexists e1, d1, e2, d2, e3].
Qed.


Lemma wait_trace_not_apply exe c t : wait_trace exe c t -> Forall (not_apply p) t.
Proof.
  induction 1; repeat constructor; try done; unfold not_apply, is_apply; simpl;
    intros [?|?]; done.
Qed.

Lemma backup_not_apply t :
  Forall (fun e => backup_command e.1) t -> Forall (not_apply p) t.
Proof.
  intros Hall. eapply Forall_impl; [exact Hall|].
  intros [c e] Hc. unfold not_apply, is_apply. simpl in *.
  destruct Hc; intros [?|?]; done.
Qed.

Lemma rollback_not_apply l t : rollback_trace l t -> Forall (not_apply p) t.
Proof.
  destruct l; simpl; try (intros ->; constructor).
  intros (e & e' & ->). repeat constructor; unfold not_apply, is_apply; simpl;
    intros [?|?]; done.
Qed.

Lemma cleanup_not_apply (t : list (command * Z)) :
  t.*1 = cleanup_commands p -> Forall (not_apply p) t.
Proof.
  intros Ht. apply Forall_forall. intros e He. unfold not_apply, is_apply.
  assert (e.1 ∈ cleanup_commands p) as Hin by (rewrite <- Ht; by apply list_elem_of_fmap_2).
  unfold cleanup_commands in Hin.
  intros [Hx|Hx]; rewrite Hx in Hin;
    repeat (apply elem_of_cons in Hin as [?|Hin]; [done|]); by apply elem_of_nil in Hin.
Qed.
End TraceFacts.

(* ===================================================================== *)
(** ** The RPC queries                                                    *)
(* ===================================================================== *)

Section Queries.
Import Encoding Rpc.

Lemma not_seven_not_eight os : IsWindows7OrGreater os = false -> IsWindows8OrGreater os = false.
Proof.
  unfold IsWindows7OrGreater, IsWindows8OrGreater, IsWindowsVersionOrGreater.
  destruct os as [ma mi sp]; cbn [wMajor wMinor wServicePack].
  rewrite !orb_false_iff, !andb_false_iff, !orb_false_iff, !andb_false_iff.
  rewrite !N.ltb_ge, !N.eqb_neq, !N.leb_gt. lia.
Qed.

Lemma not_seven_not_ten os : IsWindows7OrGreater os = false -> IsWindows10OrGreater os = false.
Proof.
  unfold IsWindows7OrGreater, IsWindows10OrGreater, IsWindowsVersionOrGreater.
  destruct os as [ma mi sp]; cbn [wMajor wMinor wServicePack].
  rewrite !orb_false_iff, !andb_false_iff, !orb_false_iff, !andb_false_iff.
  rewrite !N.ltb_ge, !N.eqb_neq, !N.leb_gt. lia.
Qed.

(** C10. [getPlatformVersion] always completes with success, its string
    begins with "Windows ", and on a system older than Windows 7 the string
    is "Windows " and nothing more. *)
Theorem getPlatformVersion_windows (os : os_version) :
  (exists family, getPlatformVersion os = Success (EString ("Windows " ++ family)%string))
  /\ (IsWindows7OrGreater os = false ->
      getPlatformVersion os = Success (EString "Windows ")).
Proof.
  split.
  - unfold getPlatformVersion.
    destruct (IsWindows10OrGreater os); [by exists "10+"|].
    destruct (IsWindows8OrGreater os); [by exists "8"|].
    destruct (IsWindows7OrGreater os); [by exists "7"|by exists ""].
  - intros H7. unfold getPlatformVersion.
    by rewrite (not_seven_not_ten os H7), (not_seven_not_eight os H7), H7.
Qed.

Lemma getPlatformVersion_windows_witness :
  IsWindows7OrGreater Scenario.vista = false
  /\ getPlatformVersion Scenario.vista = Success (EString "Windows ").
Proof.
  split; [reflexivity|].
  apply (proj2 (getPlatformVersion_windows Scenario.vista)). reflexivity.
Defined.

Lemma getCurrentVersion_yields r pv :
  yields r pv -> getCurrentVersion r = parse_build (c_str pv).
Proof.
  intros (Hsize & Hinfo & first & rest & Htr & Hpv). unfold getCurrentVersion.
  apply N.eqb_neq in Hsize. rewrite Hsize, Hinfo, Htr, Hpv. cbn [negb].
  unfold cbTranslate, sizeof_LANGANDCODEPAGE. cbn [length].
  destruct (_ <? _)%N eqn:Hlt; [|done]. apply N.ltb_lt in Hlt. lia.
Qed.

Lemma parse_build_no_build pv :
  no_build pv -> parse_build (c_str pv) = Error "VersionError" "Invalid version format.".
Proof.
  unfold no_build, parse_build. destruct (wfind plus_sign (c_str pv)) as [plusPos|]; [|done].
  intros Hlen. destruct (_ <? _)%nat eqn:Hlt; [|done]. apply Nat.ltb_lt in Hlt. lia.
Qed.

Lemma getCurrentVersion_incomplete r : incomplete r -> is_VersionError (getCurrentVersion r).
Proof.
  unfold getCurrentVersion, is_VersionError.
  intros [Hs|[Hi|[Ht|[Ht|(first & rest & Ht & Hp)]]]].
  - rewrite Hs. by eexists.
  - destruct (_ =? _)%N; [by eexists|]. rewrite Hi. by eexists.
  - destruct (_ =? _)%N; [by eexists|]. destruct (negb _); [by eexists|].
    rewrite Ht. by eexists.
  - destruct (_ =? _)%N; [by eexists|]. destruct (negb _); [by eexists|].
    rewrite Ht. by eexists.
  - destruct (_ =? _)%N; [by eexists|]. destruct (negb _); [by eexists|].
    rewrite Ht. destruct (_ <? _)%N; [by eexists|]. rewrite Hp. by eexists.
Qed.

(** C9. On the product version "1.2.3+45" [getCurrentVersion] returns "45";
    on "1.2.3" it fails with [VersionError]; and it fails with
    [VersionError] whenever the resource, its translation table or its
    version string is missing, or the string has no ['+'] with something
    after it. *)
Theorem getCurrentVersion_build (r : version_resource) :
  (yields r (L "1.2.3+45") -> getCurrentVersion r = Success (EString "45"))
  /\ (yields r (L "1.2.3") -> is_VersionError (getCurrentVersion r))
  /\ (incomplete r -> is_VersionError (getCurrentVersion r))
  /\ (forall pv, yields r pv -> no_build pv -> is_VersionError (getCurrentVersion r)).
Proof.
  split; [|split; [|split]].
  - intros Hy. by rewrite (getCurrentVersion_yields r _ Hy).
  - intros Hy. rewrite (getCurrentVersion_yields r _ Hy). by eexists.
  - apply getCurrentVersion_incomplete.
  - intros pv Hy Hnb. rewrite (getCurrentVersion_yields r _ Hy), parse_build_no_build by done.
    by eexists.
Qed.

Lemma getCurrentVersion_build_witness :
  yields (Scenario.resource_with (L "1.2.3+45")) (L "1.2.3+45")
  /\ getCurrentVersion (Scenario.resource_with (L "1.2.3+45")) = Success (EString "45").
Proof.
  assert (yields (Scenario.resource_with (L "1.2.3+45")) (L "1.2.3+45")) as Hy.
  { split; [done|]. split; [reflexivity|]. by exists Scenario.english, []. }
  split; [exact Hy|].
  exact (proj1 (getCurrentVersion_build (Scenario.resource_with (L "1.2.3+45"))) Hy).
Defined.
End Queries.

(* ===================================================================== *)
(** ** The orchestrator                                                   *)
(* ===================================================================== *)

Section Restart.
Import Encoding Rpc Orchestrator.

Lemma restart_effects h :
  restart h =
    ([Stdout ("Restarting the application..." ++ nl)%string;
      Stdout ("Executable path: " ++ WideStringToUtf8 (c_str (module_file_name h)) ++ nl)%string]
     ++ (if ofstream_is_open h
         then [WriteFile "update_script.bat" (restart_script (module_file_name h));
               Stdout ("Update batch script created successfully." ++ nl)%string]
         else [Stderr persist_error_message])
     ++ (if CreateProcess_success h
         then [CreateProcess "cmd.exe /c update_script.bat"; CloseHandles;
               Stdout ("Update script started successfully." ++ nl)%string]
         else [Stderr (spawn_error_message h)])
     ++ [ExitProcess 0],
     None).
Proof.
  unfold restart, HandleMethodCall, RestartApp, createBatFile, runBatFile.
  cbn [String.eqb Ascii.eqb Bool.eqb].
  destruct (ofstream_is_open h), (CreateProcess_success h); reflexivity.
Qed.

(** C1 as stated fails: with a child process that cannot be created the
    handler reports no [SpawnError]; it reports nothing, and the process
    exits. *)
Lemma spawn_failure_counterexample :
  let r := restart (Scenario.host_of true false) in
  CreateProcess_success (Scenario.host_of true false) = false
  /\ exited r /\ replies r = [] /\ last r.1 = Some (ExitProcess 0).
Proof. repeat split. Qed.

(** C1, amended. [RestartApp] ends the process with [ExitProcess(0)]
    whether or not the child was created, so the handler never completes
    its result; a failed spawn only leaves a message with the system error
    code on the error stream. *)
Theorem restart_exits_either_way (h : host) :
  let r := restart h in
  exited r /\ last r.1 = Some (ExitProcess 0) /\ replies r = []
  /\ spawned r = CreateProcess_success h
  /\ (if CreateProcess_success h then True else In (Stderr (spawn_error_message h)) r.1).
Proof.
  cbv zeta. rewrite restart_effects. unfold exited, replies, spawned. cbn [fst snd].
  destruct (ofstream_is_open h), (CreateProcess_success h); cbn;
    repeat split; auto 10.
Qed.

(** C7 as stated fails: with a script file that cannot be opened the
    handler reports no [PersistenceError]; the child is spawned all the
    same and the process exits. *)
Lemma persist_failure_counterexample :
  let r := restart (Scenario.host_of false true) in
  ofstream_is_open (Scenario.host_of false true) = false
  /\ replies r = [] /\ spawned r = true /\ exited r.
Proof. repeat split. Qed.

(** C7, amended. When the script file cannot be opened, [createBatFile]
    writes nothing but a message on the error stream; [RestartApp] goes on
    to spawn [cmd.exe /c update_script.bat] as usual and ends the process,
    and the handler never completes its result. *)
Theorem persist_failure_goes_on (h : host) :
  ofstream_is_open h = false ->
  let r := restart h in
  wrote_script r = false /\ In (Stderr persist_error_message) r.1
  /\ spawned r = CreateProcess_success h
  /\ exited r /\ last r.1 = Some (ExitProcess 0) /\ replies r = [].
Proof.
  intros Hopen. cbv zeta. rewrite restart_effects, Hopen.
  unfold exited, replies, spawned, wrote_script. cbn [fst snd].
  destruct (CreateProcess_success h); cbn; repeat split; auto 10.
Qed.

Lemma persist_failure_goes_on_witness :
  ofstream_is_open (Scenario.host_of false true) = false
  /\ spawned (restart (Scenario.host_of false true)) = true
  /\ exited (restart (Scenario.host_of false true)).
Proof.
  split; [reflexivity|].
  pose proof (persist_failure_goes_on (Scenario.host_of false true) eq_refl) as H.
  cbv zeta in H. destruct H as (_ & _ & Hs & He & _). split; [exact Hs | exact He].
Defined.
End Restart.

(* ===================================================================== *)
(** ** The deferred executor                                              *)
(* ===================================================================== *)

(** C2. For spliced strings without ['%'], whatever the shell answers, the
    script reaches [exit] on every path; its last four commands are those
    of CLEANUP: remove the staging directory, start the executable, wait a
    second, delete the script; and no command before them starts a program,
    so the application is relaunched exactly once. *)
Theorem cleanup_on_every_path {W : Type} `{Shell W} (p : params) (w : W) :
  percent_free p = true ->
  let r := execute p w in
  r.1 = Lexit
  /\ exists before final,
       trace r.2 = before ++ final
       /\ commands final =
            [Rmdir (updateDirStr p); Start (exePathStr p); Timeout 1;
             Del ["update_script.bat"]]
       /\ Forall no_start before.
Proof.
  intros _. cbv zeta.
  destruct (execute_shape p w) as (Hexit & Hshape & _). split; [exact Hexit|].
  by apply shape_cleanup.
Qed.

Lemma cleanup_on_every_path_witness :
  percent_free Scenario.script = true
  /\ (execute Scenario.script Scenario.blocked).1 = Lexit.
Proof.
  split; [reflexivity|].
  exact (proj1 (cleanup_on_every_path Scenario.script Scenario.blocked eq_refl)).
Defined.

(** C3. APPLY makes one, two or three copy attempts, a delay of two
    seconds stands between consecutive attempts, every attempt but the last
    has failed, and no attempt or delay of two seconds occurs anywhere else
    in the run.  After a successful attempt the Backup is deleted; after
    the third failure the restoring copy follows at once. *)
Theorem apply_retries_bounded {W : Type} `{Shell W} (p : params) (w : W) :
  let A := apply_copy p in
  let T := Timeout 2 in
  exists before attempts after,
    trace (execute p w).2 = before ++ attempts ++ after
    /\ Forall (not_apply p) before /\ Forall (not_apply p) after
    /\ ((attempts = [(A, 0%Z)] /\ backup_deleted after)
        \/ (exists e1 d1, e1 <> 0%Z
              /\ attempts = [(A, e1); (T, d1); (A, 0%Z)] /\ backup_deleted after)
        \/ (exists e1 d1 e2 d2, e1 <> 0%Z /\ e2 <> 0%Z
              /\ attempts = [(A, e1); (T, d1); (A, e2); (T, d2); (A, 0%Z)]
              /\ backup_deleted after)
        \/ (exists e1 d1 e2 d2 e3, e1 <> 0%Z /\ e2 <> 0%Z /\ e3 <> 0%Z
              /\ attempts = [(A, e1); (T, d1); (A, e2); (T, d2); (A, e3)]
              /\ rolled_back after)).
Proof.
  intros A T. destruct (execute_shape p w) as (_ & Hshape & _).
  destruct Hshape as [wt bt at_ rt ct next Hwt Hbt Hat Hrt Hct].
  assert (Forall (not_apply p) (wt ++ bt)) as Hbefore.
  { apply Forall_app. split; [by eapply wait_trace_not_apply | by apply backup_not_apply]. }
  assert (Forall (not_apply p) (rt ++ ct)) as Hafter.
  { apply Forall_app. split; [by eapply rollback_not_apply | by apply cleanup_not_apply]. }
  assert (forall d, Forall (not_apply p) ((Rmdir ["backup"], d) :: rt ++ ct)) as Hafter'.
  { intros d. constructor; [|done]. intros [?|?]; done. }
  apply apply_trace_cases in Hat. cbv zeta in Hat. fold A T in Hat.
  destruct Hat as [(d & -> & ->)|[(e1 & d1 & d & He1 & -> & ->)
    |[(e1 & d1 & e2 & d2 & d & He1 & He2 & -> & ->)
    |(e1 & d1 & e2 & d2 & e3 & He1 & He2 & He3 & -> & ->)]]].
  - exists (wt ++ bt), [(A, 0%Z)], ((Rmdir ["backup"], d) :: rt ++ ct).
    split; [by rewrite <- !app_assoc|]. split; [done|]. split; [done|].
    left. split; [done|]. by eexists _, _.
  - exists (wt ++ bt), [(A, e1); (T, d1); (A, 0%Z)], ((Rmdir ["backup"], d) :: rt ++ ct).
    split; [by rewrite <- !app_assoc|]. split; [done|]. split; [done|].
    right; left. exists e1, d1. split; [done|]. split; [done|]. by eexists _, _.
  - exists (wt ++ bt), [(A, e1); (T, d1); (A, e2); (T, d2); (A, 0%Z)],
      ((Rmdir ["backup"], d) :: rt ++ ct).
    split; [by rewrite <- !app_assoc|]. split; [done|]. split; [done|].
    right; right; left. exists e1, d1, e2, d2. do 3 (split; [done|]). by eexists _, _.
  - exists (wt ++ bt), [(A, e1); (T, d1); (A, e2); (T, d2); (A, e3)], (rt ++ ct).
    split; [by rewrite <- !app_assoc|]. split; [done|]. split; [done|].
    right; right; right. exists e1, d1, e2, d2, e3. do 4 (split; [done|]).
    cbn [rollback_trace] in Hrt. destruct Hrt as (r & r' & ->). by eexists _, _.
Qed.

(** C4 fails on the code by one poll: [%COUNT%] in the block is the value
    read when the block was entered, so the test [COUNT GEQ 5] lags one
    round behind.  When every poll of a run still finds the process, the
    run has polled the process table six times, not five. *)
Theorem wait_exit_polls_six_times {W : Type} `{Shell W} (p : params) (w : W) :
  Forall (fun e => e.1 = Tasklist (exeNameStr p) -> e.2 = 0%Z) (trace (execute p w).2) ->
  occurrences (Tasklist (exeNameStr p)) (trace (execute p w).2) = 6%nat.
Proof.
  intros Hrunning. destruct (execute_shape p w) as (_ & Hshape & _).
  destruct Hshape as [wt bt at_ rt ct next Hwt Hbt Hat Hrt Hct].
  rewrite !occurrences_app.
  rewrite (occurrences_none _ bt) by by apply backup_no_poll.
  rewrite (occurrences_none _ at_) by by eapply apply_trace_no_poll.
  rewrite (occurrences_none _ rt) by by eapply rollback_trace_no_poll.
  rewrite (occurrences_none _ ct) by by eapply cleanup_no_poll.
  rewrite (wait_trace_all_running _ 0 wt); [reflexivity|done| |unfold MAX_WAIT_ATTEMPTS; lia].
  by apply Forall_app in Hrunning as [Hrunning _].
Qed.

Lemma wait_exit_polls_six_times_witness :
  Forall (fun e => e.1 = Tasklist "app.exe" -> e.2 = 0%Z)
    (trace (execute Scenario.script Scenario.stuck).2)
  /\ occurrences (Tasklist "app.exe") (trace (execute Scenario.script Scenario.stuck).2) = 6%nat.
Proof.
  assert (Forall (fun e => e.1 = Tasklist "app.exe" -> e.2 = 0%Z)
            (trace (execute Scenario.script Scenario.stuck).2)) as Hall.
  { refine (bool_decide_unpack _ _). vm_compute. exact I. }
  split; [exact Hall|].
  exact (wait_exit_polls_six_times Scenario.script Scenario.stuck Hall).
Defined.

Lemma restart_script_update executable :
  updateDirStr (Orchestrator.restart_script executable) = ["update"].
Proof. reflexivity. Qed.

Lemma restart_script_dest executable :
  destDirStr (Orchestrator.restart_script executable) = [].
Proof. reflexivity. Qed.



Lemma installation_well_formed : well_formed Scenario.installation.
Proof. refine (bool_decide_unpack _ _). vm_compute. exact I. Qed.


(** The first proviso of the amended C5 is needed as well: a file of an old
    Backup that is held while BACKUP runs stays what it was, and ROLLBACK
    puts it into the root. *)
Lemma stale_backup_is_restored :
  files Scenario.stale_held !! ["data.dll"] = Some (File "data 1")
  /\ (run Scenario.script 3 Lentry (initial Scenario.stale_held)).1 = Lretry_copy
  /\ files (world (run Scenario.script 3 Lentry (initial Scenario.stale_held)).2)
       !! ["backup"; "data.dll"] = Some (File "data 0")
  /\ restore_copy ∈ commands (trace (execute Scenario.script Scenario.stale_held).2)
  /\ files (world (execute Scenario.script Scenario.stale_held).2) !! ["data.dll"]
     = Some (File "data 0").
Proof.
  split; [vm_compute; reflexivity|]. split; [vm_compute; reflexivity|].
  split; [vm_compute; reflexivity|]. split; [|vm_compute; reflexivity].
  refine (bool_decide_unpack _ _). vm_compute. exact I.
Qed.


(** The second proviso of the amended C6 is needed as well: with no Backup
    at the start, a copy in [backup] that is held when the script removes
    the Backup keeps the Backup on disk to the end. *)
Lemma held_backup_outlives_run :
  files Scenario.backup_held !! ["backup"] = None
  /\ (execute Scenario.script Scenario.backup_held).1 = Lexit
  /\ sh_exist ["backup"] (world (execute Scenario.script Scenario.backup_held).2) = true.
Proof. vm_compute. repeat split. Qed.






(* ===================================================================== *)
(** ** Wide strings and executable names                                  *)
(* ===================================================================== *)

Section EncodingFacts.
Import Encoding.

Lemma c_str_no_NUL (w : wstring) : Forall (fun u => u <> 0%N) w -> c_str w = w.
Proof.
  induction 1 as [|u w Hu _ IH]; [done|]. simpl.
  apply N.eqb_neq in Hu. by rewrite Hu, IH.
Qed.

Lemma c_str_app_NUL (w1 w2 : wstring) :
  Forall (fun u => u <> 0%N) w1 -> c_str (w1 ++ 0%N :: w2) = w1.
Proof.
  induction 1 as [|u w Hu _ IH]; [done|]. simpl.
  apply N.eqb_neq in Hu. by rewrite Hu, IH.
Qed.

Lemma c_str_Forall (w : wstring) : Forall (fun u => u <> 0%N) (c_str w).
Proof.
  induction w as [|u w IH]; simpl; [done|].
  destruct (N.eqb_spec u 0); [done|]. by constructor.
Qed.

Lemma c_str_idemp (w : wstring) : c_str (c_str w) = c_str w.
Proof. apply c_str_no_NUL, c_str_Forall. Qed.

Lemma WideStringToUtf8_c_str (w : wstring) :
  WideStringToUtf8 (c_str w) = WideCharToMultiByte_utf8 w.
Proof.
  unfold WideStringToUtf8, WideCharToMultiByte_utf8. rewrite c_str_idemp.
  by destruct (c_str w).
Qed.

Lemma plain_units (s : string) :
  plain s = true ->
  Forall (fun u => (0 < u < 128)%N) (L s).
Proof.
  unfold plain, L. intros Hp. apply Forall_fmap, Forall_forall. intros a Ha.
  rewrite forallb_forall in Hp. specialize (Hp a).
  rewrite andb_true_iff, N.ltb_lt, N.ltb_lt in Hp. apply Hp.
  by apply list_elem_of_In.
Qed.

Lemma code_points_small (w : wstring) :
  Forall (fun u => (0 < u < 128)%N) w ->
  concat (map utf8_bytes (code_points w)) = w.
Proof.
  induction 1 as [|u w Hu _ IH]; [done|].
  cbn [code_points]. unfold is_high_surrogate, is_low_surrogate.
  assert ((0xD800 <=? u)%N = false) as -> by (apply N.leb_gt; lia).
  assert ((0xDC00 <=? u)%N = false) as -> by (apply N.leb_gt; lia).
  cbn [andb map concat]. rewrite IH. unfold utf8_bytes.
  assert ((u <? 128)%N = true) as -> by (apply N.ltb_lt; lia). done.
Qed.

Lemma WideCharToMultiByte_utf8_plain (s : string) :
  plain s = true -> WideCharToMultiByte_utf8 (L s) = s.
Proof.
  intros Hp. apply plain_units in Hp. unfold WideCharToMultiByte_utf8.
  rewrite c_str_no_NUL by (eapply Forall_impl; [exact Hp|]; simpl; lia).
  rewrite code_points_small by done. unfold L.
  rewrite map_map. rewrite (map_ext _ id) by (intros a; apply ascii_N_embedding).
  rewrite map_id. apply string_of_list_ascii_of_string.
Qed.

(** X1. A wide literal of 7-bit characters other than NUL is converted to
    itself. *)
Theorem WideStringToUtf8_plain (s : string) :
  plain s = true -> WideStringToUtf8 (L s) = s.
Proof.
  intros Hp. unfold WideStringToUtf8.
  destruct (L s) eqn:HL; [|rewrite <- HL; by apply WideCharToMultiByte_utf8_plain].
  destruct s; [done|]. discriminate HL.
Qed.

Lemma WideStringToUtf8_plain_witness :
  plain "C:\app\app.exe" = true
  /\ WideStringToUtf8 (L "C:\app\app.exe") = "C:\app\app.exe".
Proof. split; [reflexivity|]. apply (WideStringToUtf8_plain "C:\app\app.exe"). reflexivity. Defined.

(** X2. The conversion reads its argument as a C string: what follows the
    first NUL unit is ignored, and a string that begins with NUL is
    converted to the empty string. *)
Theorem WideStringToUtf8_stops_at_NUL (w1 w2 : wstring) :
  Forall (fun u => u <> 0%N) w1 ->
  WideStringToUtf8 (w1 ++ 0%N :: w2) = WideStringToUtf8 w1.
Proof.
  intros Hw. unfold WideStringToUtf8, WideCharToMultiByte_utf8.
  rewrite c_str_app_NUL, c_str_no_NUL by done.
  destruct w1; reflexivity.
Qed.

Lemma WideStringToUtf8_stops_at_NUL_witness :
  Forall (fun u => u <> 0%N) (L "app")
  /\ WideStringToUtf8 (L "app" ++ 0%N :: L ".exe") = "app".
Proof.
  assert (Forall (fun u => u <> 0%N) (L "app")) as Hw by (repeat constructor; done).
  split; [exact Hw|].
  rewrite (WideStringToUtf8_stops_at_NUL (L "app") (L ".exe") Hw). reflexivity.
Defined.

(** *** ExtractExecutableName *)

Lemma find_last_of_None ch s :
  find_last_of ch s = None <-> ~ In ch (list_ascii_of_string s).
Proof.
  induction s as [|c s IH]; simpl; [tauto|].
  destruct (find_last_of ch s) as [p|].
  - split; [done|]. intros Hn. destruct IH as [_ IH].
    assert (Some p = None); [|done]. apply IH. tauto.
  - destruct (Ascii.eqb_spec c ch) as [->|Hne].
    + split; [done|]. intros Hn. destruct Hn. by left.
    + split; [|done]. intros _ [?|Hin]; [done|]. by apply IH in Hin.
Qed.

Lemma find_last_of_app ch s1 s2 :
  ~ In ch (list_ascii_of_string s2) ->
  find_last_of ch (s1 ++ String ch s2)%string = Some (String.length s1).
Proof.
  intros Hn. induction s1 as [|c s1 IH]; simpl.
  - apply find_last_of_None in Hn. rewrite Hn. by rewrite Ascii.eqb_refl.
  - by rewrite IH.
Qed.

Lemma find_last_of_Some ch s pos :
  find_last_of ch s = Some pos ->
  exists s1 s2, s = (s1 ++ String ch s2)%string /\ String.length s1 = pos
    /\ ~ In ch (list_ascii_of_string s2).
Proof.
  revert pos. induction s as [|c s IH]; intros pos; simpl; [done|].
  destruct (find_last_of ch s) as [p|] eqn:Hf.
  - intros [= <-]. destruct (IH p eq_refl) as (s1 & s2 & -> & <- & Hn).
    by exists (String c s1), s2.
  - destruct (Ascii.eqb_spec c ch) as [->|Hne]; [|done]. intros [= <-].
    exists "", s. split; [done|]. split; [done|]. by apply find_last_of_None.
Qed.

Lemma substring_all s : String.substring 0 (String.length s) s = s.
Proof. induction s as [|c s IH]; simpl; [done|]. by rewrite IH. Qed.

Lemma substring_after s1 c s2 :
  String.substring (String.length s1 + 1)
    (String.length (s1 ++ String c s2)%string - (String.length s1 + 1))
    (s1 ++ String c s2)%string = s2.
Proof.
  induction s1 as [|a s1 IH]; simpl.
  - rewrite Nat.sub_0_r. apply substring_all.
  - apply IH.
Qed.

Lemma ExtractExecutableName_app dir name :
  ~ In backslash (list_ascii_of_string name) ->
  ExtractExecutableName (dir ++ String backslash name)%string = name.
Proof.
  intros Hn. unfold ExtractExecutableName. fold backslash.
  rewrite find_last_of_app by done. apply substring_after.
Qed.

(** X3. [ExtractExecutableName] splits a path at its last backslash: a path
    without backslash is returned whole; otherwise the path is a directory
    part, a backslash and the name returned; the name never holds a
    backslash. *)
Theorem ExtractExecutableName_last_component (fullPath : string) :
  let name := ExtractExecutableName fullPath in
  ~ In backslash (list_ascii_of_string name)
  /\ (fullPath = name
      \/ exists dir, fullPath = (dir ++ String backslash name)%string).
Proof.
  cbv zeta. unfold ExtractExecutableName. fold backslash.
  destruct (find_last_of backslash fullPath) as [pos|] eqn:Hf.
  - destruct (find_last_of_Some _ _ _ Hf) as (s1 & s2 & -> & <- & Hn).
    rewrite substring_after. split; [done|]. right. by exists s1.
  - split; [by apply find_last_of_None|]. by left.
Qed.

(** X4. The name of [dir\name] is [name], for a name without backslash
    and whatever the directory part; a trailing backslash gives the empty
    name. *)
Theorem ExtractExecutableName_of_path (dir name : string) :
  ~ In backslash (list_ascii_of_string name) ->
  ExtractExecutableName (dir ++ String backslash name)%string = name
  /\ ExtractExecutableName name = name.
Proof.
  intros Hn. split; [by apply ExtractExecutableName_app|].
  unfold ExtractExecutableName. fold backslash.
  apply find_last_of_None in Hn. by rewrite Hn.
Qed.

Lemma ExtractExecutableName_of_path_witness :
  ExtractExecutableName ("C:\Program Files\app" ++ String backslash "app.exe")%string = "app.exe".
Proof.
  refine (proj1 (ExtractExecutableName_of_path "C:\Program Files\app" "app.exe" _)).
  cbn. intros [H|[H|[H|[H|[H|[H|[H|H]]]]]]]; try discriminate H. exact H.
Defined.

End EncodingFacts.

(* ===================================================================== *)
(** ** More on the queries                                                *)
(* ===================================================================== *)

Section QueryFacts.
Import Encoding Rpc.

Lemma wfind_app ch (pre rest : wstring) :
  Forall (fun u => u <> ch) pre -> wfind ch (pre ++ ch :: rest) = Some (length pre).
Proof.
  induction 1 as [|u pre Hu _ IH]; simpl.
  - by rewrite N.eqb_refl.
  - apply N.eqb_neq in Hu. by rewrite Hu, IH.
Qed.

Lemma wfind_last_not_of_replicate ch k : wfind_last_not_of ch (replicate k ch) = None.
Proof. induction k as [|k IH]; simpl; [done|]. by rewrite IH, N.eqb_refl. Qed.

Lemma wfind_last_not_of_snoc ch (b : wstring) x :
  x <> ch -> wfind_last_not_of ch (b ++ [x]) = Some (length b).
Proof.
  intros Hx. induction b as [|u b IH]; simpl.
  - apply N.eqb_neq in Hx. by rewrite Hx.
  - by rewrite IH.
Qed.

Lemma wfind_last_not_of_padded ch (b : wstring) k :
  wfind_last_not_of ch (b ++ replicate k ch) = wfind_last_not_of ch b.
Proof.
  induction b as [|u b IH]; simpl.
  - rewrite wfind_last_not_of_replicate. done.
  - by rewrite IH.
Qed.

(** The characters kept by the trimming [erase]. *)
Lemma trim_padded (build : wstring) k :
  last build <> Some space ->
  take (match wfind_last_not_of space (build ++ replicate k space) with
        | Some p => (p + 1)%nat
        | None => 0%nat
        end) (build ++ replicate k space) = build.
Proof.
  intros Hl. rewrite wfind_last_not_of_padded.
  destruct build as [|u b _] using rev_ind; [done|].
  rewrite last_snoc in Hl.
  rewrite wfind_last_not_of_snoc by congruence.
  replace (length b + 1)%nat with (length (b ++ [u])) by (rewrite length_app; simpl; lia).
  by rewrite take_app_length.
Qed.

Lemma parse_build_padded (pre build : wstring) k :
  Forall (fun u => u <> plus_sign) pre ->
  last build <> Some space -> (build <> [] \/ 0 < k)%nat ->
  parse_build (pre ++ plus_sign :: build ++ replicate k space) =
    Success (EString (WideCharToMultiByte_utf8 build)).
Proof.
  intros Hpre Hl Hne. unfold parse_build. rewrite wfind_app by done.
  assert ((length pre + 1 <? length (pre ++ plus_sign :: build ++ replicate k space))%nat
          = true) as ->.
  { apply Nat.ltb_lt. rewrite length_app. simpl. rewrite length_app, length_replicate.
    destruct Hne as [Hne|Hne]; [destruct build; [done|simpl; lia]|lia]. }
  rewrite Nat.add_comm. simpl.
  replace (pre ++ plus_sign :: build ++ replicate k space)
    with ((pre ++ [plus_sign]) ++ build ++ replicate k space) by by rewrite <- app_assoc.
  replace (S (length pre)) with (length (pre ++ [plus_sign]))
    by (rewrite length_app; simpl; lia).
  rewrite drop_app_length. by rewrite trim_padded.
Qed.

Lemma c_str_version (pre build : wstring) k :
  Forall (fun u => u <> 0%N) pre -> Forall (fun u => u <> 0%N) build ->
  c_str (pre ++ plus_sign :: build ++ replicate k space)
    = pre ++ plus_sign :: build ++ replicate k space.
Proof.
  intros Hpre Hb. apply c_str_no_NUL. apply Forall_app. split; [done|].
  constructor; [done|]. apply Forall_app. split; [done|].
  apply Forall_replicate. done.
Qed.

Lemma resource_cases r : incomplete r \/ exists pv, yields r pv.
Proof.
  destruct (N.eq_dec (verSize r) 0%N) as [?|Hs]; [by left; left|].
  destruct (fileVersionInfo r) eqn:Hi; [|by left; right; left].
  destruct (translation r) as [[|first rest]|] eqn:Ht;
    [by left; do 3 right; left| |by left; do 2 right; left].
  destruct (productVersionOf r first) as [pv|] eqn:Hp.
  - right. exists pv. split; [done|]. split; [done|]. by exists first, rest.
  - left. do 4 right. by exists first, rest.
Qed.

Lemma no_build_dec pv : no_build pv \/ ~ no_build pv.
Proof.
  unfold no_build. destruct (wfind plus_sign (c_str pv)) as [plusPos|]; [|by left].
  destruct (le_dec (length (c_str pv)) (plusPos + 1)); [by left|by right].
Qed.

Lemma parse_build_has_build pv :
  ~ no_build pv -> exists b, parse_build (c_str pv) = Success (EString b).
Proof.
  unfold no_build, parse_build. destruct (wfind plus_sign (c_str pv)) as [plusPos|]; [|done].
  intros Hlen. destruct (_ <? _)%nat eqn:Hlt; [by eexists|].
  apply Nat.ltb_ge in Hlt. lia.
Qed.

Lemma yields_functional r pv pv' : yields r pv -> yields r pv' -> pv = pv'.
Proof.
  intros (_ & _ & f & rest & Ht & Hp) (_ & _ & f' & rest' & Ht' & Hp'). congruence.
Qed.

Lemma yields_not_incomplete r pv : yields r pv -> ~ incomplete r.
Proof.
  intros (Hs & Hi & f & rest & Ht & Hp) [?|[?|[?|[?|(f' & rest' & Ht' & Hp')]]]]; congruence.
Qed.

(** X5. [getCurrentVersion] succeeds exactly when the resource answers every
    query and its product version has a ['+'] with something after it; in
    every other case it fails with [VersionError], so it never leaves the
    call unanswered and never reports [NotImplemented]. *)
Theorem getCurrentVersion_outcome (r : version_resource) :
  ((exists b, getCurrentVersion r = Success (EString b))
     <-> exists pv, yields r pv /\ ~ no_build pv)
  /\ (is_VersionError (getCurrentVersion r)
     <-> incomplete r \/ exists pv, yields r pv /\ no_build pv).
Proof.
  destruct (resource_cases r) as [Hinc|[pv Hy]].
  - pose proof (getCurrentVersion_incomplete r Hinc) as [m Hm]. split; split.
    + intros [b Hb]. congruence.
    + intros (pv & Hy & _). by destruct (yields_not_incomplete r pv).
    + by left.
    + intros _. by exists m.
  - rewrite (getCurrentVersion_yields r pv Hy).
    destruct (no_build_dec pv) as [Hnb|Hb].
    + rewrite parse_build_no_build by done. split; split.
      * intros [b Hb]. done.
      * intros (pv' & Hy' & Hb'). by rewrite (yields_functional r pv pv') in Hnb.
      * intros _. right. by exists pv.
      * intros _. by eexists.
    + destruct (parse_build_has_build pv Hb) as [b ->]. split; split.
      * intros _. by exists pv.
      * intros _. by exists b.
      * intros [m Hm]. done.
      * intros [Hinc|(pv' & Hy' & Hnb')].
        -- by destruct (yields_not_incomplete r pv).
        -- by rewrite (yields_functional r pv' pv) in Hnb'.
Qed.

(** X6. For a product version [pre+build] followed by any number of spaces,
    where [pre] holds no ['+'] and [build] does not end with a space, the
    result is [build] in UTF-8: the text after the first ['+'] with the
    trailing spaces removed. *)
Theorem getCurrentVersion_trims (r : version_resource) (pre build : wstring) (k : nat) :
  yields r (pre ++ plus_sign :: build ++ replicate k space) ->
  Forall (fun u => u <> 0%N /\ u <> plus_sign) pre ->
  Forall (fun u => u <> 0%N) build ->
  last build <> Some space -> build <> [] ->
  getCurrentVersion r = Success (EString (WideCharToMultiByte_utf8 build)).
Proof.
  intros Hy Hpre Hb Hl Hne. rewrite (getCurrentVersion_yields r _ Hy).
  rewrite c_str_version; [|by eapply Forall_impl; [exact Hpre|]; intros ? [? ?]|done].
  apply parse_build_padded; [|done|by left].
  eapply Forall_impl; [exact Hpre|]. by intros ? [? ?].
Qed.

Lemma getCurrentVersion_trims_witness :
  getCurrentVersion (Scenario.resource_with (L "2.0.1+7" ++ replicate 3 space))
    = Success (EString "7").
Proof.
  refine (getCurrentVersion_trims (Scenario.resource_with (L "2.0.1+7" ++ replicate 3 space))
            (L "2.0.1") (L "7") 3 _ _ _ _ _).
  - split; [done|]. split; [reflexivity|]. by exists Scenario.english, [].
  - repeat constructor; done.
  - repeat constructor; done.
  - done.
  - done.
Defined.

(** X7. A build part made of spaces only is accepted: the handler answers
    with the empty string, not with an error. *)
Theorem getCurrentVersion_blank_build (r : version_resource) (pre : wstring) (k : nat) :
  yields r (pre ++ plus_sign :: replicate (S k) space) ->
  Forall (fun u => u <> 0%N /\ u <> plus_sign) pre ->
  getCurrentVersion r = Success (EString "").
Proof.
  intros Hy Hpre. rewrite (getCurrentVersion_yields r _ Hy).
  pose proof (c_str_version pre [] (S k)) as Hc. cbn [app] in Hc.
  rewrite Hc; [|by eapply Forall_impl; [exact Hpre|]; intros ? [? ?]|done].
  pose proof (parse_build_padded pre [] (S k)) as Hp. cbn [app] in Hp.
  rewrite Hp; [done| |done|right; lia].
  eapply Forall_impl; [exact Hpre|]. by intros ? [? ?].
Qed.

Lemma getCurrentVersion_blank_build_witness :
  getCurrentVersion (Scenario.resource_with (L "1.2.3+ ")) = Success (EString "").
Proof.
  refine (getCurrentVersion_blank_build (Scenario.resource_with (L "1.2.3+ ")) (L "1.2.3") 0 _ _).
  - split; [done|]. split; [reflexivity|]. by exists Scenario.english, [].
  - repeat constructor; done.
Defined.

(** X8. Only the first entry of the translation table is used: two resources
    that agree on the size and version-info queries and on the product
    version of their common first translation give the same answer,
    whatever else their tables hold. *)
Theorem getCurrentVersion_first_translation
    (r r' : version_resource) (first : LANGANDCODEPAGE) (rest rest' : list LANGANDCODEPAGE) :
  (verSize r = 0%N <-> verSize r' = 0%N) ->
  fileVersionInfo r = fileVersionInfo r' ->
  translation r = Some (first :: rest) -> translation r' = Some (first :: rest') ->
  productVersionOf r first = productVersionOf r' first ->
  getCurrentVersion r = getCurrentVersion r'.
Proof.
  intros Hs Hi Ht Ht' Hp. unfold getCurrentVersion. rewrite Hi, Ht, Ht', Hp.
  assert ((verSize r =? 0)%N = (verSize r' =? 0)%N) as ->.
  { destruct (N.eqb_spec (verSize r) 0), (N.eqb_spec (verSize r') 0); tauto. }
  unfold cbTranslate, sizeof_LANGANDCODEPAGE. cbn [length].
  assert (forall n, (4 * N.of_nat (S n) <? 4)%N = false) as Hlt
    by (intros n; apply N.ltb_ge; lia).
  by rewrite !Hlt.
Qed.

Lemma getCurrentVersion_first_translation_witness :
  getCurrentVersion
    {| verSize := 8; fileVersionInfo := true;
       translation := Some [Scenario.english; {| wLanguage := 0x0407; wCodePage := 0x04B0 |}];
       productVersionOf := fun t =>
         if (wLanguage t =? 0x0409)%N then Some (L "1.2.3+45") else Some (L "9.9.9+99") |}
  = getCurrentVersion (Scenario.resource_with (L "1.2.3+45")).
Proof.
  refine (getCurrentVersion_first_translation _ _ Scenario.english _ [] _ _ _ _ _).
  - split; intros H; discriminate H.
  - reflexivity.
  - reflexivity.
  - reflexivity.
  - reflexivity.
Defined.

Lemma IsWindows10OrGreater_major os : IsWindows10OrGreater os = (10 <=? wMajor os)%N.
Proof.
  unfold IsWindows10OrGreater, IsWindowsVersionOrGreater.
  apply eq_true_iff_eq.
  rewrite orb_true_iff, !andb_true_iff, orb_true_iff, andb_true_iff.
  rewrite !N.ltb_lt, !N.eqb_eq, !N.leb_le. lia.
Qed.

Lemma IsWindows8OrGreater_minor os :
  IsWindows8OrGreater os = ((7 <=? wMajor os) || ((wMajor os =? 6) && (2 <=? wMinor os)))%N.
Proof.
  unfold IsWindows8OrGreater, IsWindowsVersionOrGreater.
  apply eq_true_iff_eq.
  rewrite !orb_true_iff, !andb_true_iff, orb_true_iff, andb_true_iff.
  rewrite !N.ltb_lt, !N.eqb_eq, !N.leb_le. lia.
Qed.

Lemma IsWindows7OrGreater_minor os :
  IsWindows7OrGreater os = ((7 <=? wMajor os) || ((wMajor os =? 6) && (1 <=? wMinor os)))%N.
Proof.
  unfold IsWindows7OrGreater, IsWindowsVersionOrGreater.
  apply eq_true_iff_eq.
  rewrite !orb_true_iff, !andb_true_iff, orb_true_iff, andb_true_iff.
  rewrite !N.ltb_lt, !N.eqb_eq, !N.leb_le. lia.
Qed.

(** X9. The family named by [getPlatformVersion] depends on the major and
    minor version numbers only: "10+" from major 10 on, "8" from 6.2 up to
    major 9, "7" on 6.1, and nothing below. *)
Theorem getPlatformVersion_family (os : os_version) :
  getPlatformVersion os = Success (EString ("Windows " ++ family_of os)%string).
Proof.
  unfold getPlatformVersion, family_of.
  rewrite IsWindows10OrGreater_major, IsWindows8OrGreater_minor, IsWindows7OrGreater_minor.
  destruct (10 <=? wMajor os)%N; [done|].
  destruct (7 <=? wMajor os)%N; [done|]. cbn [orb].
  destruct (wMajor os =? 6)%N; [|done]. cbn [andb].
  destruct (N.leb_spec 2 (wMinor os)); [done|].
  destruct (N.leb_spec 1 (wMinor os)), (N.eqb_spec (wMinor os) 1); try done; lia.
Qed.

End QueryFacts.

(* ===================================================================== *)
(** ** More on the handler and the script it writes                       *)
(* ===================================================================== *)

Section HandlerFacts.
Import Encoding Rpc Orchestrator.

Lemma restart_script_exePath executable :
  exePathStr (restart_script executable) = WideCharToMultiByte_utf8 executable.
Proof. apply WideStringToUtf8_c_str. Qed.

(** X10. Every method but [restartApp] completes the result exactly once,
    does nothing else and returns; a method name the plugin does not know
    is answered with [NotImplemented]. *)
Theorem HandleMethodCall_replies_once (h : host) (method_name : string) :
  method_name <> "restartApp" ->
  (exists answer, HandleMethodCall h method_name = ([Reply answer], Some tt))
  /\ (method_name <> "getPlatformVersion" -> method_name <> "getExecutablePath" ->
      method_name <> "getCurrentVersion" ->
      HandleMethodCall h method_name = ([Reply NotImplemented], Some tt)).
Proof.
  intros Hr. unfold HandleMethodCall.
  destruct (String.eqb_spec method_name "getPlatformVersion") as [|_].
  { split; [by eexists|done]. }
  destruct (String.eqb_spec method_name "restartApp") as [|_]; [done|].
  destruct (String.eqb_spec method_name "getExecutablePath") as [|_].
  { split; [by eexists|done]. }
  destruct (String.eqb_spec method_name "getCurrentVersion") as [|_].
  { split; [by eexists|done]. }
  split; [by eexists|done].
Qed.

Lemma HandleMethodCall_replies_once_witness :
  HandleMethodCall (Scenario.host_of true true) "getVersion" = ([Reply NotImplemented], Some tt).
Proof.
  refine (proj2 (HandleMethodCall_replies_once (Scenario.host_of true true) "getVersion" _) _ _ _);
    intros H; discriminate H.
Defined.

(** X11. [getExecutablePath] answers with the path that [RestartApp] puts
    into the script, followed by one NUL character: its string is sized
    with the terminator included. *)
Theorem getExecutablePath_trailing_NUL (h : host) :
  HandleMethodCall h "getExecutablePath" =
    ([Reply (Success (EString
        (exePathStr (restart_script (module_file_name h)) ++ String (ascii_of_nat 0) "")%string))],
     Some tt).
Proof. rewrite restart_script_exePath. reflexivity. Qed.

(** X12. What [restartApp] does besides printing: it writes the script when
    the file opens, then creates the child and closes its handles when the
    child can be created, then exits; the script is always the one for the
    running executable, and the child always runs
    [cmd.exe /c update_script.bat]. *)
Theorem restart_actions_in_order (h : host) :
  let p := restart_script (module_file_name h) in
  actions (restart h) =
    (if ofstream_is_open h then [WriteFile "update_script.bat" p] else [])
    ++ (if CreateProcess_success h
        then [CreateProcess "cmd.exe /c update_script.bat"; CloseHandles] else [])
    ++ [ExitProcess 0].
Proof.
  cbv zeta. rewrite restart_effects. unfold actions. cbn [fst].
  destruct (ofstream_is_open h), (CreateProcess_success h); reflexivity.
Qed.

End HandlerFacts.

Section ScriptParameters.
Import Encoding Orchestrator.

(** X13. For an executable path [dir\name] of 7-bit characters, [RestartApp]
    builds the script with staging directory [update], the working
    directory as destination, the path itself to restart and [name] as the
    image to wait for. *)
Theorem restart_script_of_path (dir name : string) :
  plain (dir ++ String backslash name)%string = true ->
  ~ In backslash (list_ascii_of_string name) ->
  restart_script (L (dir ++ String backslash name)%string) =
    {| updateDirStr := ["update"]; destDirStr := [];
       exePathStr := (dir ++ String backslash name)%string; exeNameStr := name |}.
Proof.
  intros Hp Hn. unfold restart_script, batScript.
  rewrite WideStringToUtf8_c_str, WideCharToMultiByte_utf8_plain by done.
  rewrite ExtractExecutableName_app by done. reflexivity.
Qed.

Lemma restart_script_of_path_witness :
  restart_script Scenario.exe =
    {| updateDirStr := ["update"]; destDirStr := [];
       exePathStr := "C:\app\app.exe"; exeNameStr := "app.exe" |}.
Proof.
  refine (restart_script_of_path "C:\app" "app.exe" _ _).
  - reflexivity.
  - cbn. intros [H|[H|[H|[H|[H|[H|[H|H]]]]]]]; try discriminate H. exact H.
Defined.
End ScriptParameters.

(* ===================================================================== *)
(** ** More on the traces of the script                                   *)
(* ===================================================================== *)

Section WaitFacts.
Context {W : Type} `{Shell W}.
Variable p : params.

Lemma codes_of_cons c e (t : list (command * Z)) :
  codes_of c (e :: t) = if decide (e.1 = c) then e.2 :: codes_of c t else codes_of c t.
Proof.
  unfold codes_of. destruct (decide (e.1 = c)).
  - by rewrite filter_cons_True.
  - by rewrite filter_cons_False.
Qed.

Lemma wait_trace_shape exe c t :
  wait_trace exe c t -> (0 <= c <= MAX_WAIT_ATTEMPTS)%Z ->
  exists (k : nat) (e : Z),
    (c + Z.of_nat k <= MAX_WAIT_ATTEMPTS)%Z
    /\ commands t =
         concat (replicate k [Tasklist exe; Timeout 1])
         ++ Tasklist exe
            :: (if (c + Z.of_nat k =? MAX_WAIT_ATTEMPTS)%Z && (e =? 0)%Z
                then [Taskkill exe] else [])
    /\ codes_of (Tasklist exe) t = replicate k 0%Z ++ [e]
    /\ ((c + Z.of_nat k < MAX_WAIT_ATTEMPTS)%Z -> e <> 0%Z).
Proof.
  induction 1 as [c e He|c e' Hc|c e' t Hc Hw IH]; intros Hr.
  - exists 0%nat, e. split; [lia|]. split; [|split; [|done]].
    + apply Z.eqb_neq in He. rewrite He, andb_false_r. reflexivity.
    + rewrite codes_of_cons. cbn [fst snd]. by rewrite decide_True.
  - exists 0%nat, 0%Z. split; [lia|]. split; [|split; [|lia]].
    + replace (c + Z.of_nat 0)%Z with MAX_WAIT_ATTEMPTS by lia. reflexivity.
    + rewrite !codes_of_cons. cbn [fst snd]. by rewrite decide_True, decide_False.
  - destruct IH as (k & e & Hk & Hcmd & Hcodes & He); [lia|].
    exists (S k), e. replace (c + Z.of_nat (S k))%Z with (c + 1 + Z.of_nat k)%Z by lia.
    split; [lia|]. split; [|split; [|done]].
    + unfold commands in *. cbn [fmap list_fmap fst replicate concat app].
      change (list_fmap _ _ fst t) with (t.*1). by rewrite Hcmd.
    + rewrite !codes_of_cons. cbn [fst snd]. rewrite decide_True, decide_False by done.
      by rewrite Hcodes.
Qed.

Lemma wait_trace_script exe c t :
  exe = exeNameStr p -> wait_trace exe c t -> Forall (script_command p) (commands t).
Proof.
  intros ->. induction 1; unfold commands in *; cbn; repeat constructor; try done.
Qed.

Lemma backup_script t :
  Forall (fun e => backup_command e.1) t -> Forall (script_command p) (commands t).
Proof.
  intros Hall. unfold commands. apply Forall_fmap. eapply Forall_impl; [exact Hall|].
  intros [c e] Hc. cbn in *. destruct Hc; cbn; eauto.
Qed.

Lemma apply_trace_script r t l : apply_trace p r t l -> Forall (script_command p) (commands t).
Proof.
  induction 1; unfold commands in *; cbn [fmap list_fmap fst];
    repeat (apply Forall_cons; split); try apply Forall_nil; try done; cbn; auto.
Qed.

Lemma rollback_trace_script l t : rollback_trace l t -> Forall (script_command p) (commands t).
Proof.
  destruct l; simpl; try (intros ->; constructor).
  intros (e & e' & ->). unfold commands. cbn [fmap list_fmap fst].
  repeat (apply Forall_cons; split); try apply Forall_nil; cbn; auto.
Qed.

Lemma cleanup_script (t : list (command * Z)) :
  t.*1 = cleanup_commands p -> Forall (script_command p) (commands t).
Proof.
  intros Ht. unfold commands. rewrite Ht. unfold cleanup_commands.
  repeat (apply Forall_cons; split); try apply Forall_nil; cbn; auto.
Qed.

Lemma backup_no_process t :
  Forall (fun e => backup_command e.1) t -> Forall (fun c => ~ process_command c) (commands t).
Proof.
  intros Hall. unfold commands. apply Forall_fmap. eapply Forall_impl; [exact Hall|].
  intros [c e] Hc. cbn in *. destruct Hc; cbn; auto.
Qed.

Lemma apply_trace_no_process r t l :
  apply_trace p r t l -> Forall (fun c => ~ process_command c) (commands t).
Proof.
  induction 1; unfold commands in *; cbn [fmap list_fmap fst];
    repeat (apply Forall_cons; split); try apply Forall_nil; try done; cbn; auto.
Qed.

Lemma rollback_trace_no_process l t :
  rollback_trace l t -> Forall (fun c => ~ process_command c) (commands t).
Proof.
  destruct l; simpl; try (intros ->; constructor).
  intros (e & e' & ->). unfold commands. cbn [fmap list_fmap fst].
  repeat (apply Forall_cons; split); try apply Forall_nil; cbn; auto.
Qed.

Lemma cleanup_no_process (t : list (command * Z)) :
  t.*1 = cleanup_commands p -> Forall (fun c => ~ process_command c) (commands t).
Proof.
  intros Ht. unfold commands. rewrite Ht. unfold cleanup_commands.
  repeat (apply Forall_cons; split); try apply Forall_nil; cbn; auto.
Qed.

End WaitFacts.

(** X14. WAIT_EXIT, whatever the shell answers: [k] polls that find the
    process, each followed by a delay of one second, then a last poll with
    code [e]; [k] is at most [MAX_WAIT_ATTEMPTS], so the polls number at
    most six; fewer rounds than that end with a poll that no longer finds
    the process; [taskkill] is issued exactly when the poll after the fifth
    delay still finds it; and nothing after WAIT_EXIT polls or kills. *)
Theorem wait_exit_shape {W : Type} `{Shell W} (p : params) (w : W) :
  let exe := exeNameStr p in
  exists (k : nat) (e : Z) (wt rest : list (command * Z)),
    trace (execute p w).2 = wt ++ rest
    /\ (Z.of_nat k <= MAX_WAIT_ATTEMPTS)%Z
    /\ commands wt =
         concat (replicate k [Tasklist exe; Timeout 1])
         ++ Tasklist exe
            :: (if (Z.of_nat k =? MAX_WAIT_ATTEMPTS)%Z && (e =? 0)%Z
                then [Taskkill exe] else [])
    /\ codes_of (Tasklist exe) wt = replicate k 0%Z ++ [e]
    /\ ((Z.of_nat k < MAX_WAIT_ATTEMPTS)%Z -> e <> 0%Z)
    /\ Forall (fun c => ~ process_command c) (commands rest).
Proof.
  intros exe. destruct (execute_shape p w) as (_ & Hshape & _).
  destruct Hshape as [wt bt at_ rt ct next Hwt Hbt Hat Hrt Hct].
  destruct (wait_trace_shape _ _ _ Hwt) as (k & e & Hk & Hcmd & Hcodes & He);
    [unfold MAX_WAIT_ATTEMPTS; lia|].
  exists k, e, wt, (bt ++ at_ ++ rt ++ ct). split; [done|].
  rewrite Z.add_0_l in *. do 4 (split; [done|]).
  unfold commands. rewrite !fmap_app. repeat (apply Forall_app; split).
  - by apply backup_no_process.
  - by eapply apply_trace_no_process.
  - by eapply rollback_trace_no_process.
  - by eapply cleanup_no_process.
Qed.

(** X15. For spliced strings without ['%'], a run issues no command but
    those of the script with the arguments [createBatFile] gave them: it polls and kills only the image
    [exeNameStr], starts only [exePathStr], removes only the directories
    [backup] and [updateDirStr], deletes only [update_script.bat], and
    copies only into [backup], from [updateDirStr] to [destDirStr] and from
    [backup] to the working directory. *)
Theorem run_issues_script_commands {W : Type} `{Shell W} (p : params) (w : W) :
  percent_free p = true ->
  Forall (script_command p) (commands (trace (execute p w).2)).
Proof.
  intros _. destruct (execute_shape p w) as (_ & Hshape & _).
  destruct Hshape as [wt bt at_ rt ct next Hwt Hbt Hat Hrt Hct].
  unfold commands. rewrite !fmap_app. repeat (apply Forall_app; split).
  - by eapply wait_trace_script.
  - by apply backup_script.
  - by eapply apply_trace_script.
  - by eapply rollback_trace_script.
  - by eapply cleanup_script.
Qed.

Lemma run_issues_script_commands_witness :
  percent_free Scenario.script = true
  /\ Forall (script_command Scenario.script)
       (commands (trace (execute Scenario.script Scenario.blocked).2)).
Proof.
  split; [reflexivity|].
  exact (run_issues_script_commands Scenario.script Scenario.blocked eq_refl).
Defined.

Section DelayFacts.
Variable p : params.

Lemma total_delay_app (t1 t2 : list (command * Z)) :
  total_delay (t1 ++ t2) = (total_delay t1 + total_delay t2)%Z.
Proof.
  unfold total_delay, commands. rewrite fmap_app, foldr_app.
  induction (t1.*1) as [|c l IH]; cbn [foldr]; [lia|]. rewrite IH. lia.
Qed.

Lemma total_delay_cons e (t : list (command * Z)) :
  total_delay (e :: t) = (delay_of e.1 + total_delay t)%Z.
Proof. reflexivity. Qed.

Lemma wait_trace_delay exe c t :
  wait_trace exe c t -> (0 <= c <= MAX_WAIT_ATTEMPTS)%Z ->
  (0 <= total_delay t <= MAX_WAIT_ATTEMPTS - c)%Z.
Proof.
  induction 1 as [c e He|c e' Hc|c e' t Hc Hw IH]; intros Hr.
  - cbn. lia.
  - cbn. lia.
  - rewrite !total_delay_cons. cbn [fst delay_of]. specialize (IH ltac:(lia)). lia.
Qed.

Lemma backup_delay t : Forall (fun e => backup_command e.1) t -> total_delay t = 0%Z.
Proof.
  induction 1 as [|e t He _ IH]; [done|].
  rewrite total_delay_cons, IH. by destruct He.
Qed.

Lemma apply_trace_delay r t l :
  apply_trace p r t l -> (0 <= r < MAX_RETRY_ATTEMPTS)%Z ->
  (0 <= total_delay t <= (MAX_RETRY_ATTEMPTS - (r + 1)) * RETRY_DELAY_SECONDS)%Z.
Proof.
  unfold MAX_RETRY_ATTEMPTS, RETRY_DELAY_SECONDS.
  induction 1 as [r e'|r e e' t l He Hr Hat IH|r e He Hr]; intros Hrange.
  - rewrite !total_delay_cons. unfold apply_copy. cbn [fst delay_of total_delay].
    change (total_delay []) with 0%Z. lia.
  - unfold MAX_RETRY_ATTEMPTS in Hr. rewrite !total_delay_cons.
    unfold apply_copy, RETRY_DELAY_SECONDS. cbn [fst delay_of].
    specialize (IH ltac:(lia)). lia.
  - rewrite !total_delay_cons. unfold apply_copy. cbn [fst delay_of total_delay].
    change (total_delay []) with 0%Z. lia.
Qed.

Lemma rollback_delay l t : rollback_trace l t -> total_delay t = 0%Z.
Proof.
  destruct l; simpl; try (by intros ->).
  by intros (e & e' & ->).
Qed.

Lemma cleanup_delay (t : list (command * Z)) :
  t.*1 = cleanup_commands p -> total_delay t = 1%Z.
Proof. intros Ht. unfold total_delay, commands. by rewrite Ht. Qed.
End DelayFacts.

(** X16. The delays of a run are bounded whatever the shell answers: the
    script sleeps one second after each of at most [MAX_WAIT_ATTEMPTS]
    polls, [RETRY_DELAY_SECONDS] after each copy attempt but the last, and
    one second before it deletes itself: between one and ten seconds in
    all. *)
Theorem delays_bounded {W : Type} `{Shell W} (p : params) (w : W) :
  (1 <= total_delay (trace (execute p w).2)
     <= MAX_WAIT_ATTEMPTS * 1 + (MAX_RETRY_ATTEMPTS - 1) * RETRY_DELAY_SECONDS + 1)%Z.
Proof.
  destruct (execute_shape p w) as (_ & Hshape & _).
  destruct Hshape as [wt bt at_ rt ct next Hwt Hbt Hat Hrt Hct].
  rewrite !total_delay_app.
  pose proof (wait_trace_delay _ _ _ Hwt) as Hw.
  pose proof (apply_trace_delay p _ _ _ Hat) as Ha.
  rewrite (backup_delay bt Hbt), (rollback_delay _ _ Hrt), (cleanup_delay p ct Hct).
  unfold MAX_WAIT_ATTEMPTS, MAX_RETRY_ATTEMPTS, RETRY_DELAY_SECONDS in *. lia.
Qed.

(* ===================================================================== *)
(** ** More on the script on the file-system model                        *)
(* ===================================================================== *)

Section Tidy.
Variable p : params.
Implicit Types (s : state disk) (t k : path).

Lemma dir_at_Some (fs : gmap path node) t : dir_at fs t = true <-> fs !! t = Some Dir.
Proof. unfold dir_at. destruct (fs !! t) as [[c|]|]; split; done. Qed.

(** [del] takes away a file that is not held. *)
Lemma del_gone (w : disk) f :
  locked w (now w) f = false -> file_at (del w f).1 f = false.
Proof.
  intros Hl. unfold del. rewrite Hl. cbn [negb]. rewrite andb_true_r.
  destruct (file_at (files w) f) eqn:Hf; [|done]. cbn [fst].
  unfold file_at. by rewrite lookup_delete_eq.
Qed.

Lemma run_command_no_new_file c (w : disk) t :
  creates c = false ->
  file_at (files w) t = false -> file_at (files (run_command c w).1) t = false.
Proof.
  intros Hc Ht. destruct c; try done; cbn [run_command fst snd];
    change (files (tick ?w ?f)) with f.
  - unfold file_at at 1. rewrite rmdir_lookup.
    destruct (dir_at (files w) dir); [|exact Ht].
    destruct (decide _); [|exact Ht]. destruct (stays _ _); [exact Ht|done].
  - unfold file_at in *. unfold del. destruct (_ && _); [|done]. cbn [fst].
    destruct (decide (file = t)) as [->|Hne].
    + by rewrite lookup_delete_eq.
    + by rewrite lookup_delete_ne.
Qed.

Lemma exec_no_new_file c s t :
  creates c = false ->
  file_at (files (world s)) t = false -> file_at (files (world (exec c s))) t = false.
Proof. intros. rewrite exec_files. by apply run_command_no_new_file. Qed.

(** [rmdir] of a directory in which nothing is ever held leaves nothing of
    it. *)
Lemma exec_rmdir_below s d k :
  free_below d (world s) -> dir_at (files (world s)) d = true -> d `prefix_of` k ->
  files (world (exec (Rmdir d) s)) !! k = None.
Proof.
  intros Hfree Hd Hk. rewrite exec_files. cbn [run_command fst snd].
  change (files (tick ?w ?f)) with f. apply rmdir_below_None; [|done|done].
  by apply free_below_now.
Qed.

Lemma step_tidy pc s :
  free_below ["backup"] (world s) -> free_below ["update_script.bat"] (world s) ->
  tidy pc s -> tidy (step p pc s).1 (step p pc s).2.
Proof.
  intros Hfb Hfs. destruct pc; intros Hinv; cbn [tidy] in Hinv.
  - done.
  - rewrite step_wait_loop. cbv zeta.
    destruct (_ =? _)%Z; [destruct (_ <=? _)%Z|]; cbn [fst snd tidy];
      repeat (first [apply exec_no_new_file; [done|] | done]).
  - unfold step. cbn [fst snd tidy].
    change (world (set_RETRY 0 ?x)) with (world x).
    apply backup_subdirs_keep_dir, backup_files_keep_dir.
    destruct (files (world s) !! ["backup"]) as [[c|]|] eqn:Hb.
    + unfold file_at in Hinv. by rewrite Hb in Hinv.
    + assert (sh_exist backup_dir (world s) = true) as ->.
      { change (sh_exist backup_dir (world s))
          with (bool_decide (is_Some (files (world s) !! ["backup"]))).
        rewrite Hb. by apply bool_decide_eq_true_2. }
      apply exec_mkdir_backup; [by apply exec_free_below|]. by apply exec_rmdir_backup.
    + assert (sh_exist backup_dir (world s) = false) as ->.
      { change (sh_exist backup_dir (world s))
          with (bool_decide (is_Some (files (world s) !! ["backup"]))).
        rewrite Hb. apply bool_decide_eq_false. by intros [? ?]. }
      by apply exec_mkdir_backup.
  - rewrite step_retry_copy. cbv zeta.
    assert (files (world (exec (apply_copy p) (set_RETRY (RETRY s + 1) s)))
              !! ["backup"] = Some Dir) as Hdir by by apply exec_keeps_dir.
    destruct (_ =? _)%Z; [|destruct (_ <? _)%Z]; cbn [fst snd tidy].
    + intros q. apply exec_rmdir_below;
        [by apply exec_free_below | by apply dir_at_Some | by exists q].
    + by apply exec_keeps_dir.
    + done.
  - unfold step. cbn [fst snd tidy]. intros q.
    apply exec_rmdir_below; [by apply exec_free_below | | by exists q].
    apply dir_at_Some. by apply exec_keeps_dir.
  - unfold step. cbn [fst snd tidy]. split.
    + intros q. do 4 (apply exec_keeps_none; [done|]). apply Hinv.
    + rewrite exec_files. cbn [run_command fst snd]. change (files (tick ?w ?f)) with f.
      apply del_gone. apply (free_below_now ["update_script.bat"]); [|done].
      by do 3 apply exec_free_below.
  - done.
Qed.

Lemma run_tidy n pc s :
  free_below ["backup"] (world s) -> free_below ["update_script.bat"] (world s) ->
  tidy pc s -> tidy (run p n pc s).1 (run p n pc s).2.
Proof.
  revert pc s. induction n as [|n IH]; intros pc s Hfb Hfs Hinv; simpl; [done|].
  apply IH; [by apply step_free_below | by apply step_free_below | by apply step_tidy].
Qed.
End Tidy.

(** X17. Where no plain file is named [backup] and neither the script's
    file nor anything at or below [backup] is ever held or denied, the run
    leaves nothing at or below [backup] and no file [update_script.bat]
    behind, however it went.  A Backup directory left by an earlier run is
    allowed at the start: it goes with the rest. *)
Theorem nothing_left_behind (p : params) (w : disk) :
  file_at (files w) ["backup"] = false ->
  free_below ["backup"] w -> free_below ["update_script.bat"] w ->
  let fs := files (world (execute p w).2) in
  (forall q, fs !! ("backup" :: q) = None) /\ file_at fs ["update_script.bat"] = false.
Proof.
  intros Hfile Hfb Hfs. cbv zeta.
  pose proof (run_tidy p enough_fuel Lentry (initial w) Hfb Hfs Hfile) as Hinv.
  fold (execute p w) in Hinv. destruct (execute_shape p w) as (Hexit & _ & _).
  rewrite Hexit in Hinv. exact Hinv.
Qed.

Lemma nothing_left_behind_witness :
  files Scenario.stale !! ["backup"; "app.exe"] = Some (File "app 0")
  /\ files (world (execute Scenario.script Scenario.stale).2) !! ["backup"; "app.exe"] = None.
Proof.
  split; [vm_compute; reflexivity|].
  refine (proj1 (nothing_left_behind Scenario.script Scenario.stale _ _ _) ["app.exe"]).
  - vm_compute. reflexivity.
  - intros t k _. reflexivity.
  - intros t k _. reflexivity.
Defined.



Section WholeRun.
Variable p : params.
Hypothesis Hupdate : updateDirStr p = ["update"].
Hypothesis Hdest : destDirStr p = [].
Variable fs0 : gmap path node.
Hypothesis Hwf : well_formed fs0.
Hypothesis Hnb : fs0 !! ["update"; "backup"] = None.
Hypothesis Hnu : fs0 !! ["update"; "update"] = None.
Implicit Types (fs : gmap path node) (w : disk) (s : state disk) (t k q a : path).

Lemma package_no_backup q : fs0 !! ("update" :: "backup" :: q) = None.
Proof.
  destruct q as [|n q]; [done|].
  apply (well_formed_below fs0 ["update"; "backup"]); [done|done|congruence].
Qed.

Lemma package_no_update q : fs0 !! ("update" :: "update" :: q) = None.
Proof.
  destruct q as [|n q]; [done|].
  apply (well_formed_below fs0 ["update"; "update"]); [done|done|congruence].
Qed.

Lemma exec_apply_lookup s n q :
  files (world (exec (apply_copy p) s)) !! (n :: q) =
    match files (world s) !! ("update" :: n :: q) with
    | Some v =>
        if (dir_at (files (world s)) ["update"]) && wrote (world s) ["update"] [] (n :: q) v
        then Some v else files (world s) !! (n :: q)
    | None => files (world s) !! (n :: q)
    end.
Proof.
  rewrite exec_files. unfold apply_copy. rewrite Hupdate, Hdest.
  change (files (run_command (Xcopy [FE; FI; FY] ["update"] []) (world s)).1)
    with (xcopy_stop (world s) ["update"] []).1.
  apply apply_copy_lookup.
Qed.

(** The copy of APPLY is made without [/C]: an attempt that reports success
    has written every entry of the package. *)
Lemma exec_apply_ok s n q v :
  ERRORLEVEL (exec (apply_copy p) s) = 0%Z ->
  files (world s) !! ("update" :: n :: q) = Some v ->
  files (world (exec (apply_copy p) s)) !! (n :: q) = Some v.
Proof.
  intros He Hv. rewrite exec_files.
  unfold apply_copy in *. rewrite Hupdate, Hdest in *.
  change (ERRORLEVEL (exec (Xcopy [FE; FI; FY] ["update"] []) s))
    with (xcopy_stop (world s) ["update"] []).2 in He.
  change (files (run_command (Xcopy [FE; FI; FY] ["update"] []) (world s)).1)
    with (xcopy_stop (world s) ["update"] []).1.
  rewrite xcopy_stop_files. unfold xcopy_stop in He.
  destruct (_ && _); [|done]. cbn [snd] in He.
  rewrite xcopy_fold_lookup. cbn [strip app]. rewrite Hv. unfold wrote.
  case_bool_decide as Hall; [|done].
  specialize (Hall _ _ Hv). unfold xcopy_entry_ok in Hall. cbn [strip decide] in Hall.
  rewrite decide_True in Hall by done. cbn [strip app] in Hall. by rewrite Hall.
Qed.





Lemma exec_rmdir_installed s d :
  d = ["backup"] \/ d = ["update"] ->
  installed fs0 (files (world s)) -> installed fs0 (files (world (exec (Rmdir d) s))).
Proof.
  intros Hd Hi n q v Hv Hne. rewrite exec_rmdir_outside; [by apply Hi|].
  intros [q' Hq']. destruct Hd as [-> | ->]; injection Hq' as -> _.
  - by rewrite package_no_backup in Hv.
  - by rewrite package_no_update in Hv.
Qed.

Lemma exec_trace_commands c s :
  commands (trace (exec c s)) = commands (trace s) ++ [c].
Proof. unfold commands. rewrite exec_trace, fmap_app. reflexivity. Qed.




(** The package, step by step. *)
Lemma step_applied_inv pc s :
  applied_inv fs0 pc s -> applied_inv fs0 (step p pc s).1 (step p pc s).2.
Proof.
  destruct pc; intros Hinv; cbn [applied_inv] in Hinv.
  - done.
  - rewrite step_wait_loop. cbv zeta.
    destruct (_ =? _)%Z; [destruct (_ <=? _)%Z|]; done.
  - change (step p Lstep2 s).1 with Lretry_copy. cbn [applied_inv]. intros q.
    rewrite backup_outside by (by apply not_prefix_backup). by rewrite Hinv.
  - rewrite step_retry_copy. cbv zeta.
    set (s0 := set_RETRY (RETRY s + 1) s).
    assert (forall q, files (world s0) !! ("update" :: q) = fs0 !! ("update" :: q))
      as H0 by exact Hinv.
    assert (forall q, files (world (exec (apply_copy p) s0)) !! ("update" :: q)
                      = fs0 !! ("update" :: q)) as Hr.
    { intros q. rewrite exec_apply_lookup, !H0. by rewrite package_no_update. }
    destruct (ERRORLEVEL (exec (apply_copy p) s0) =? 0)%Z eqn:He;
      [apply Z.eqb_eq in He|destruct (_ <? _)%Z]; cbn [fst snd applied_inv].
    + right. apply exec_rmdir_installed; [by left|].
      intros n q v Hv _. apply exec_apply_ok; [done|]. by rewrite H0.
    + intros q. rewrite timeout_files. apply Hr.
    + exact Hr.
  - unfold step. cbn [fst snd applied_inv].
    left. rewrite !exec_trace_commands. apply elem_of_app. left.
    apply elem_of_app. right. by apply list_elem_of_singleton.
  - unfold step. cbn [fst snd applied_inv]. rewrite Hupdate.
    destruct Hinv as [H2|H2].
    + left. rewrite !exec_trace_commands, !elem_of_app. by do 4 left.
    + right. intros n q v Hv Hne.
      rewrite exec_del_lookup by done. rewrite !timeout_files.
      change (files (world (exec (Start ?e) ?x))) with (files (world x)).
      by apply exec_rmdir_installed; [right|..].
  - done.
Qed.

Lemma run_applied_inv n pc s :
  applied_inv fs0 pc s -> applied_inv fs0 (run p n pc s).1 (run p n pc s).2.
Proof.
  revert pc s. induction n as [|n IH]; intros pc s Hinv; simpl; [done|].
  by apply IH, step_applied_inv.
Qed.

Lemma execute_applied_inv w :
  files w = fs0 -> applied_inv fs0 Lexit (execute p w).2.
Proof.
  intros Hw. pose proof (run_applied_inv enough_fuel Lentry (initial w)) as Hinv.
  fold (execute p w) in Hinv. destruct (execute_shape p w) as (Hexit & _ & _).
  rewrite Hexit in Hinv. apply Hinv. exact Hw.
Qed.
End WholeRun.



(** X20. For the script [RestartApp] writes, run on a well-formed root whose
    package has no entry named [backup] or [update]: a run that never comes
    to the restoring copy of ROLLBACK, so that one of its attempts
    succeeded, ends with every entry of the package in the root, except an
    entry that would replace the running script itself. *)
Theorem applied_update_is_installed (executable : Encoding.wstring) (w : disk) :
  let p := Orchestrator.restart_script executable in
  well_formed (files w) ->
  files w !! ["update"; "backup"] = None -> files w !! ["update"; "update"] = None ->
  restore_copy ∉ commands (trace (execute p w).2) ->
  forall n q v, files w !! ("update" :: n :: q) = Some v ->
    n :: q <> ["update_script.bat"] ->
    files (world (execute p w).2) !! (n :: q) = Some v.
Proof.
  intros p Hwf Hnb Hnu Hno.
  destruct (execute_applied_inv p (restart_script_update executable)
              (restart_script_dest executable) (files w) Hwf Hnb Hnu w eq_refl)
    as [Hr|Hi]; [done|exact Hi].
Qed.

Lemma applied_update_is_installed_witness :
  files (world (execute Scenario.script Scenario.quiet).2) !! ["lib"; "x.dll"]
    = Some (File "x 2").
Proof.
  refine (applied_update_is_installed Scenario.exe Scenario.quiet
            installation_well_formed _ _ _ "lib" ["x.dll"] (File "x 2") _ _);
    try (vm_compute; reflexivity).
  - refine (bool_decide_unpack _ _). vm_compute. exact I.
  - intros H; discriminate H.
Defined.

Section Added.
Variable p : params.
Hypothesis Hupdate : updateDirStr p = ["update"].
Implicit Types (s : state disk) (q : path).

End Added.



(* ===================================================================== *)
(** ** What a run never takes away                                        *)
(* ===================================================================== *)

Section Replay.
Context {W : Type} `{Shell W}.
Variable p : params.
Variable w0 : W.
Implicit Types (s : state W).






End Replay.

Section Spared.
Implicit Types (fs : gmap path node) (w : disk) (t k q : path).


End Spared.

Section Kept.
Variable p : params.


End Kept.



(* ===================================================================== *)
(** ** The staging directory                                              *)
(* ===================================================================== *)

Section Staged.
Variable p : params.
Hypothesis Hd : ~ ["backup"] `prefix_of` updateDirStr p.
Implicit Types (s : state disk) (k : path).

Lemma step_staged pc s :
  free_below (updateDirStr p) (world s) ->
  staged (updateDirStr p) pc s -> staged (updateDirStr p) (step p pc s).1 (step p pc s).2.
Proof.
  intros Hfree. destruct pc; intros Hinv; cbn [staged] in Hinv;
    try apply dir_at_Some in Hinv.
  - by apply dir_at_Some.
  - rewrite step_wait_loop. cbv zeta.
    destruct (_ =? _)%Z; [destruct (_ <=? _)%Z|]; cbn [fst snd staged]; apply dir_at_Some;
      repeat (first [apply exec_keeps_dir; [done|] | done]).
  - unfold step. cbn [fst snd staged]. apply dir_at_Some.
    change (world (set_RETRY 0 ?x)) with (world x).
    apply backup_subdirs_keep_dir, backup_files_keep_dir, exec_keeps_dir; [done|].
    destruct (sh_exist _ _); [|done]. by rewrite exec_rmdir_outside.
  - rewrite step_retry_copy. cbv zeta.
    assert (files (world (exec (apply_copy p) (set_RETRY (RETRY s + 1) s)))
              !! updateDirStr p = Some Dir) as Hdir by by apply exec_keeps_dir.
    destruct (_ =? _)%Z; [|destruct (_ <? _)%Z]; cbn [fst snd staged]; apply dir_at_Some.
    + by rewrite exec_rmdir_outside.
    + by apply exec_keeps_dir.
    + done.
  - unfold step. cbn [fst snd staged]. apply dir_at_Some.
    rewrite exec_rmdir_outside by done. by apply exec_keeps_dir.
  - unfold step. cbn [fst snd staged]. intros k Hk.
    do 3 (apply exec_keeps_none; [done|]).
    apply exec_rmdir_below; [done | by apply dir_at_Some | done].
  - exact Hinv.
Qed.

Lemma run_staged n pc s :
  free_below (updateDirStr p) (world s) ->
  staged (updateDirStr p) pc s -> staged (updateDirStr p) (run p n pc s).1 (run p n pc s).2.
Proof.
  revert pc s. induction n as [|n IH]; intros pc s Hfree Hinv; simpl; [done|].
  apply IH; [by apply step_free_below | by apply step_staged].
Qed.
End Staged.

(** X23. The removal of the staging directory takes effect where nothing
    stands against it: for spliced strings without ['%'], if the staging
    directory exists when the script starts, does not lie in [backup], and
    nothing at or below it is ever held or denied, then nothing at or below
    it is left when the script ends, whether the update was applied or
    rolled back. *)
Theorem staging_removed (p : params) (w : disk) :
  percent_free p = true ->
  dir_at (files w) (updateDirStr p) = true ->
  ~ ["backup"] `prefix_of` updateDirStr p ->
  free_below (updateDirStr p) w ->
  forall k, updateDirStr p `prefix_of` k -> files (world (execute p w).2) !! k = None.
Proof.
  intros _ Hdir Hd Hfree.
  pose proof (run_staged p Hd enough_fuel Lentry (initial w) Hfree Hdir) as Hinv.
  fold (execute p w) in Hinv. destruct (execute_shape p w) as (Hexit & _ & _).
  rewrite Hexit in Hinv. exact Hinv.
Qed.

Lemma staging_removed_witness :
  files Scenario.blocked !! ["update"; "lib"; "x.dll"] = Some (File "x 2")
  /\ files (world (execute Scenario.script Scenario.blocked).2) !! ["update"; "lib"; "x.dll"]
     = None.
Proof.
  split; [vm_compute; reflexivity|].
  refine (staging_removed Scenario.script Scenario.blocked _ _ _ _ ["update"; "lib"; "x.dll"] _).
  - vm_compute. reflexivity.
  - vm_compute. reflexivity.
  - intros [q Hq]. vm_compute in Hq. discriminate Hq.
  - intros t k [q ->]. apply bool_decide_eq_false. vm_compute. discriminate.
  - exists ["lib"; "x.dll"]. vm_compute. reflexivity.
Defined.
